(** * Verification of the tool functions of the Strands / AgentCore samples

    The repository is a set of stand-alone Python demo scripts.  The
    functions modelled here are the ones that carry logic of their own:

    - [analyze_sentiment]          (02_tools_and_functions.py)
    - [execute_python_code]        (19_code_execution.py)
    - [setup_database], [execute_sql_query]   (13_database_agent.py)
    - [MemoryManager]              (09_memory_context.py)
    - [DocumentChunker], [SimpleVectorStore]  (12_rag_pipeline.py)
    - the [POST /chat] handler     (04_fastapi_chatbot.py)

    Python [str] values are modelled by Rocq strings read as ASCII text
    (one character per code point below 128).  Python's own methods
    ([lower], [upper], [strip], [split], [in], [startswith], [rfind],
    slicing) are written out in [PyStr] with their behaviour on that
    range; characters from 128 on are left alone by the case mappings and
    are not white space.  External services (the SQLite engine, the JSON
    codec, the agent, the operating system) appear as Section variables,
    with the outcomes the Python code distinguishes. *)

From Stdlib Require Import ZArith Ascii String List Lia Bool Permutation Sorted.
From stdpp Require Import gmap strings list fin_maps.
From Stdlib Require DecimalString DecimalNat.

Set Warnings "-register-all".
Open Scope string_scope.

(* ================================================================== *)
(** * Python strings                                                   *)
(* ================================================================== *)

Module PyStr.

(** [str.isspace] on one ASCII character: TAB, LF, VT, FF, CR, the four
    separators FS, GS, RS, US, and the blank. *)
Definition isspace (c : ascii) : bool :=
  let n := nat_of_ascii c in
  ((9 <=? n)%nat && (n <=? 13)%nat) || ((28 <=? n)%nat && (n <=? 32)%nat).

Definition is_upper (c : ascii) : bool :=
  let n := nat_of_ascii c in (65 <=? n)%nat && (n <=? 90)%nat.

Definition is_lower (c : ascii) : bool :=
  let n := nat_of_ascii c in (97 <=? n)%nat && (n <=? 122)%nat.

Definition lower_char (c : ascii) : ascii :=
  if is_upper c then ascii_of_nat (nat_of_ascii c + 32) else c.

Definition upper_char (c : ascii) : ascii :=
  if is_lower c then ascii_of_nat (nat_of_ascii c - 32) else c.

Fixpoint map_chars (f : ascii -> ascii) (s : string) : string :=
  match s with
  | EmptyString => EmptyString
  | String c s' => String (f c) (map_chars f s')
  end.

(** [s.lower()] and [s.upper()] on ASCII text.  Beyond ASCII Python's
    mappings are others (the upper case of a dotless i is [I]): what is
    stated of [upper] below is stated of ASCII text. *)
Definition lower (s : string) : string := map_chars lower_char s.
Definition upper (s : string) : string := map_chars upper_char s.

(** [s.isascii()]: every character lies below 128. *)
Fixpoint isascii (s : string) : bool :=
  match s with
  | EmptyString => true
  | String c s' => (nat_of_ascii c <? 128)%nat && isascii s'
  end.

Fixpoint lstrip (s : string) : string :=
  match s with
  | EmptyString => EmptyString
  | String c s' => if isspace c then lstrip s' else s
  end.

Fixpoint rstrip (s : string) : string :=
  match s with
  | EmptyString => EmptyString
  | String c s' =>
      match rstrip s' with
      | EmptyString => if isspace c then EmptyString else String c EmptyString
      | r => String c r
      end
  end.

(** [s.strip()]: leading and trailing white space removed. *)
Definition strip (s : string) : string := rstrip (lstrip s).

(** [s.startswith(p)]. *)
Definition startswith (s p : string) : bool := String.prefix p s.

(** [p in s]: [p] occurs in [s] as a contiguous substring. *)
Fixpoint contains (p s : string) : bool :=
  String.prefix p s ||
  match s with
  | EmptyString => false
  | String _ s' => contains p s'
  end.

(** [s.split()]: the maximal runs of non-space characters, in order.
    [w] is the run being read. *)
Fixpoint split_go (w s : string) : list string :=
  match s with
  | EmptyString => match w with EmptyString => [] | _ => [w] end
  | String c s' =>
      if isspace c
      then match w with
           | EmptyString => split_go EmptyString s'
           | _ => w :: split_go EmptyString s'
           end
      else split_go (w ++ String c EmptyString) s'
  end.

Definition split (s : string) : list string := split_go EmptyString s.

(** [len(s)] as a Python integer. *)
Definition len (s : string) : Z := Z.of_nat (String.length s).

(** Python's clamping of one slice bound against a length. *)
Definition clamp (n i : Z) : Z :=
  if (i <? 0)%Z then Z.max 0 (i + n) else Z.min i n.

(** [s[i:j]] with Python's treatment of negative and oversized bounds. *)
Definition slice (s : string) (i j : Z) : string :=
  let n := len s in
  let a := clamp n i in
  let b := clamp n j in
  String.substring (Z.to_nat a) (Z.to_nat (b - a)) s.

(** [s.rfind(c)] for a one-character needle: the highest index holding
    [c], or [-1]. *)
Fixpoint rfind_from (k : Z) (c : ascii) (s : string) : Z :=
  match s with
  | EmptyString => (-1)%Z
  | String d s' =>
      let r := rfind_from (k + 1) c s' in
      if (0 <=? r)%Z then r else if Ascii.eqb d c then k else (-1)%Z
  end.

Definition rfind (s : string) (c : ascii) : Z := rfind_from 0 c s.

End PyStr.

(* ================================================================== *)
(** * 02_tools_and_functions.py: [analyze_sentiment]                   *)
(* ================================================================== *)

Module Sentiment.
Import PyStr.

Definition positive_words : list string := ["good"; "great"; "excellent"; "amazing"].
Definition negative_words : list string := ["bad"; "poor"; "terrible"; "awful"].

(** [sum(1 for word in words if word in text_lower)]. *)
Definition count_words (words : list string) (text_lower : string) : nat :=
  sum_list (map (fun _ => 1) (List.filter (fun word => contains word text_lower) words)).

Definition analyze_sentiment (text : string) : string :=
  let text_lower := lower text in
  let pos_count := count_words positive_words text_lower in
  let neg_count := count_words negative_words text_lower in
  if (neg_count <? pos_count)%nat then "Positive sentiment"
  else if (pos_count <? neg_count)%nat then "Negative sentiment"
  else "Neutral sentiment".

End Sentiment.

(* ================================================================== *)
(** * Python values shared by the scripts                              *)
(* ================================================================== *)

Module PyData.

(** The values [json.load] produces and [json.dump] accepts.  A [dict]
    keeps its keys in insertion order. *)
Inductive json : Type :=
| JNull
| JBool (b : bool)
| JNum (n : Z)
| JStr (s : string)
| JList (l : list json)
| JDict (d : list (string * json)).

Section Dict.
Context {V : Type}.

(** [d.get(k)] *)
Fixpoint dict_get (k : string) (d : list (string * V)) : option V :=
  match d with
  | [] => None
  | (k', v) :: d' => if String.eqb k k' then Some v else dict_get k d'
  end.

(** [d[k] = v]: an existing key keeps its position, a new key goes last. *)
Fixpoint dict_set (k : string) (v : V) (d : list (string * V)) : list (string * V) :=
  match d with
  | [] => [(k, v)]
  | (k', v') :: d' =>
      if String.eqb k k' then (k', v) :: d' else (k', v') :: dict_set k v d'
  end.

End Dict.

(** [l[i:]] and [l[:j]] on a Python list. *)
Definition list_from {A} (l : list A) (i : Z) : list A :=
  drop (Z.to_nat (PyStr.clamp (Z.of_nat (length l)) i)) l.

Definition list_upto {A} (l : list A) (j : Z) : list A :=
  take (Z.to_nat (PyStr.clamp (Z.of_nat (length l)) j)) l.

End PyData.

(* ================================================================== *)
(** * 19_code_execution.py: [execute_python_code]                      *)
(* ================================================================== *)

Module CodeExec.
Import PyStr.

Definition dangerous_patterns : list string :=
  [ "import os"; "import subprocess"; "import sys"; "__import__";
    "eval("; "exec("; "compile("; "open("; "file("; "input("; "raw_input(" ].

(** What [subprocess.run(..., timeout=5)] does: it returns the captured
    streams, raises [TimeoutExpired], or raises something else. *)
Inductive run_result : Type :=
| Completed (stdout stderr : string)
| TimeoutExpired
| RunRaised (msg : string).

(** The calls the function makes on the operating system, in order. *)
Inductive os_call : Type :=
| WriteTemp (code : string)
| Spawn (temp_file : string)
| Unlink (temp_file : string).


Definition security_error (pattern : string) : string :=
  "⚠️ Security Error: Code contains potentially dangerous operation: " ++ pattern.

(** How a call of the function ends: it returns a string, or an exception
    (given by its message) leaves it. *)
Inductive outcome : Type :=
| Returns (result : string)
| Raises (msg : string).

Section WithOS.
(** The operating system: its state, the creation of the temporary file
    holding the code ([inl] its name, [inr] the message of the exception
    raised before [temp_file] is bound), running the interpreter on a
    file, and removing a file ([None] when [Path.unlink] returns, [Some]
    the message of the exception it raises, as it does when the file is
    no longer there). *)
Variable OS : Type.
Variable write_temp : string -> OS -> (string + string) * OS.
Variable subprocess_run : string -> OS -> run_result * OS.
Variable unlink : string -> OS -> option string * OS.

(** The function's result: how it ends, the operating-system calls it
    made, and the state it leaves. *)
Definition execute_python_code (code : string) (os : OS)
  : outcome * list os_call * OS :=
  let code_lower := lower code in
  match List.find (fun pattern => contains pattern code_lower) dangerous_patterns with
  | Some pattern => (Returns (security_error pattern), [], os)
  | None =>
      match write_temp code os with
      | (inr e, os1) =>
          (* except Exception, with temp_file not in locals() *)
          (Returns ("❌ Execution error: " ++ e), [WriteTemp code], os1)
      | (inl temp_file, os1) =>
          match subprocess_run temp_file os1 with
          | (Completed stdout stderr, os2) =>
              match unlink temp_file os2 with
              | (None, os3) =>
                  let output := EmptyString in
                  let output := match stdout with
                                | EmptyString => output
                                | _ => output ++ stdout
                                end in
                  let output := match stderr with
                                | EmptyString => output
                                | _ => output ++ String "010" "⚠️ Errors:" ++ String "010" stderr
                                end in
                  (Returns match output with
                           | EmptyString => "✅ Code executed successfully (no output)"
                           | _ => output
                           end,
                   [WriteTemp code; Spawn temp_file; Unlink temp_file],
                   os3)
              | (Some e, os3) =>
                  (* except Exception, with temp_file in locals(): the
                     removal is tried again, outside any try *)
                  match unlink temp_file os3 with
                  | (None, os4) =>
                      (Returns ("❌ Execution error: " ++ e),
                       [WriteTemp code; Spawn temp_file; Unlink temp_file; Unlink temp_file],
                       os4)
                  | (Some e', os4) =>
                      (Raises e',
                       [WriteTemp code; Spawn temp_file; Unlink temp_file; Unlink temp_file],
                       os4)
                  end
              end
          | (TimeoutExpired, os2) =>
              (* except subprocess.TimeoutExpired *)
              match unlink temp_file os2 with
              | (None, os3) =>
                  (Returns "⏱️ Execution timeout (> 5 seconds)",
                   [WriteTemp code; Spawn temp_file; Unlink temp_file],
                   os3)
              | (Some e, os3) =>
                  (Raises e, [WriteTemp code; Spawn temp_file; Unlink temp_file], os3)
              end
          | (RunRaised e, os2) =>
              (* except Exception, with temp_file in locals() *)
              match unlink temp_file os2 with
              | (None, os3) =>
                  (Returns ("❌ Execution error: " ++ e),
                   [WriteTemp code; Spawn temp_file; Unlink temp_file],
                   os3)
              | (Some e', os3) =>
                  (Raises e', [WriteTemp code; Spawn temp_file; Unlink temp_file], os3)
              end
          end
      end
  end.

End WithOS.

(** [any(pattern in code.lower() for pattern in dangerous_patterns)] *)
Definition denylisted (code : string) : bool :=
  existsb (fun pattern => contains pattern (lower code)) dangerous_patterns.

(** ** Vocabulary of the properties, and sample surroundings *)



Definition temp_ok (code : string) (os : unit) : (string + string) * unit :=
  (inl "/tmp/tmpab12cd.py", os).

Definition run_echo (temp_file : string) (os : unit) : run_result * unit :=
  (Completed "hello" EmptyString, os).

Definition unlink_unit (temp_file : string) (os : unit) : option string * unit :=
  (None, os).

(** An operating system with at most one temporary file: the state is
    whether the file is there.  The script run removes its own file, and
    [Path.unlink] raises when there is no file. *)
Definition temp_create (code : string) (os : bool) : (string + string) * bool :=
  (inl "/tmp/tmpab12cd.py", true).

Definition run_self_deleting (temp_file : string) (os : bool) : run_result * bool :=
  (Completed EmptyString EmptyString, false).

Definition unlink_file (temp_file : string) (os : bool) : option string * bool :=
  if os then (None, false)
  else (Some ("[Errno 2] No such file or directory: '" ++ temp_file ++ "'"), false).

End CodeExec.

(* ================================================================== *)
(** * 13_database_agent.py: [setup_database], [execute_sql_query]      *)
(* ================================================================== *)

Module SqlAgent.
Import PyStr PyData.

(** ** The part of SQLite the set-up script exercises

    A database is a set of named tables.  A table has its declared
    columns and its rows.  Only what the four kinds of statement of
    [setup_database] need is modelled: plain tables, without triggers,
    views or constraints other than single-column uniqueness.  Values are
    stored as they are given: SQLite's conversion of a value to the type
    affinity of its column is left out, which changes nothing for a
    column declared without a type and for the sample rows in columns
    declared as the script declares them. *)

Inductive sqlval : Type :=
| VNull
| VInt (n : Z)
| VReal (literal : string)
| VText (s : string).

Definition sqlval_eqb (a b : sqlval) : bool :=
  match a, b with
  | VNull, VNull => true
  | VInt x, VInt y => (x =? y)%Z
  | VReal x, VReal y => String.eqb x y
  | VText x, VText y => String.eqb x y
  | _, _ => false
  end.

Record column : Type := Column {
  col_name : string;
  col_type : string;
  col_unique : bool   (* PRIMARY KEY or UNIQUE *)
}.

Record table : Type := Table {
  columns : list column;
  rows : list (list sqlval)
}.

Inductive result (A : Type) : Type :=
| Done (a : A)
| Raised (msg : string) (a : A).
Arguments Done {A} a.
Arguments Raised {A} msg a.

(** [CREATE TABLE IF NOT EXISTS name (cols)]: nothing happens when a
    table of that name is there already. *)
Definition create_table_if_not_exists (name : string) (cols : list column)
    (db : gmap string table) : gmap string table :=
  match db !! name with
  | Some _ => db
  | None => <[name := Table cols []]> db
  end.

(** [DELETE FROM name] *)
Definition delete_from (name : string) (db : gmap string table)
  : result (gmap string table) :=
  match db !! name with
  | Some t => Done (<[name := Table (columns t) []]> db)
  | None => Raised ("no such table: " ++ name) db
  end.

(** Does [row] repeat, in a unique column, a value some stored row has?
    ([NULL]s never clash.) *)
Fixpoint unique_conflict (cols : list column) (row other : list sqlval) : bool :=
  match cols, row, other with
  | c :: cols', v :: row', v' :: other' =>
      (col_unique c && negb (sqlval_eqb v VNull) && sqlval_eqb v v')
      || unique_conflict cols' row' other'
  | _, _, _ => false
  end.

(** [INSERT INTO name VALUES (?, ..., ?)] with one row of parameters. *)
Definition insert_row (name : string) (row : list sqlval) (db : gmap string table)
  : result (gmap string table) :=
  match db !! name with
  | None => Raised ("no such table: " ++ name) db
  | Some t =>
      if negb (length row =? length (columns t))%nat
      then Raised ("table " ++ name ++ " has a different number of columns") db
      else if existsb (unique_conflict (columns t) row) (rows t)
      then Raised ("UNIQUE constraint failed") db
      else Done (<[name := Table (columns t) (rows t ++ [row])%list]> db)
  end.

(** [cursor.executemany('INSERT INTO name VALUES (...)', rows)] *)
Fixpoint executemany_insert (name : string) (rs : list (list sqlval))
    (db : gmap string table) : result (gmap string table) :=
  match rs with
  | [] => Done db
  | r :: rs' =>
      match insert_row name r db with
      | Done db' => executemany_insert name rs' db'
      | Raised e db' => Raised e db'
      end
  end.

(** ** [setup_database] *)

Definition products_columns : list column :=
  [ Column "id" "INTEGER" true; Column "name" "TEXT" false;
    Column "category" "TEXT" false; Column "price" "REAL" false;
    Column "stock" "INTEGER" false ].

Definition orders_columns : list column :=
  [ Column "id" "INTEGER" true; Column "product_id" "INTEGER" false;
    Column "quantity" "INTEGER" false; Column "customer_name" "TEXT" false;
    Column "order_date" "DATE" false ].

Definition product (id : Z) (name category price : string) (stock : Z) : list sqlval :=
  [VInt id; VText name; VText category; VReal price; VInt stock].

Definition order (id product_id quantity : Z) (customer_name order_date : string)
  : list sqlval :=
  [VInt id; VInt product_id; VInt quantity; VText customer_name; VText order_date].

Definition products : list (list sqlval) :=
  [ product 1 "Laptop Pro" "Electronics" "1299.99" 15;
    product 2 "Wireless Mouse" "Electronics" "29.99" 100;
    product 3 "USB-C Cable" "Accessories" "19.99" 200;
    product 4 "Desk Chair" "Furniture" "299.99" 25;
    product 5 ("Monitor 27" ++ String (ascii_of_nat 34) EmptyString) "Electronics" "399.99" 30;
    product 6 "Keyboard Mechanical" "Electronics" "149.99" 45;
    product 7 "Desk Lamp" "Furniture" "59.99" 60;
    product 8 "Notebook Set" "Stationery" "12.99" 150 ].

Definition orders : list (list sqlval) :=
  [ order 1 1 2 "Alice Johnson" "2025-10-01";
    order 2 2 5 "Bob Smith" "2025-10-01";
    order 3 5 1 "Alice Johnson" "2025-10-02";
    order 4 4 3 "Carol White" "2025-10-02";
    order 5 1 1 "David Brown" "2025-10-03";
    order 6 6 2 "Alice Johnson" "2025-10-03";
    order 7 3 10 "Bob Smith" "2025-10-04";
    order 8 7 4 "Eve Davis" "2025-10-04" ].

(** The statements of the script in order.  The two [CREATE TABLE]
    statements take effect at once; the deletions and insertions run in
    one transaction that [conn.commit()] ends, so an exception on the way
    leaves the database as it was after the [CREATE TABLE] statements. *)
Definition setup_database (db : gmap string table) : result (gmap string table) :=
  let db0 := create_table_if_not_exists "products" products_columns db in
  let db0 := create_table_if_not_exists "orders" orders_columns db0 in
  match delete_from "orders" db0 with
  | Raised e _ => Raised e db0
  | Done db1 =>
  match delete_from "products" db1 with
  | Raised e _ => Raised e db0
  | Done db2 =>
  match executemany_insert "products" products db2 with
  | Raised e _ => Raised e db0
  | Done db3 =>
  match executemany_insert "orders" orders db3 with
  | Raised e _ => Raised e db0
  | Done db4 => Done db4
  end end end end.

(** ** [execute_sql_query] *)

(** What [cursor.execute(query)], [fetchall()] and [cursor.description]
    give: the column names and rows, an [sqlite3.Error], or another
    exception. *)
Inductive exec_outcome : Type :=
| Fetched (description : list string) (rows : list (list sqlval))
| SqliteError (msg : string)
| OtherException (msg : string).

(** The database file together with the statements run on it so far. *)
Record world : Type := World {
  database : gmap string table;
  executed : list string
}.

Definition only_select_error : string :=
  "Error: Only SELECT queries are allowed for safety reasons.".

(** [dict(zip(columns, row))] *)
Fixpoint dict_zip (cols : list string) (row : list sqlval)
    (d : list (string * sqlval)) : list (string * sqlval) :=
  match cols, row with
  | c :: cols', v :: row' => dict_zip cols' row' (dict_set c v d)
  | _, _ => d
  end.

Section WithEngine.
(** The SQLite engine on arbitrary statements, and [json.dumps(results,
    indent=2)], which returns the text ([inl]) or raises ([inr]). *)
Variable sqlite_execute :
  string -> gmap string table -> exec_outcome * gmap string table.
Variable json_dumps : list (list (string * sqlval)) -> string + string.

Definition execute_sql_query (query : string) (w : world) : string * world :=
  if negb (startswith (upper (strip query)) "SELECT")
  then (only_select_error, w)
  else
    let '(outcome, db') := sqlite_execute query (database w) in
    let w' := World db' (executed w ++ [query])%list in
    match outcome with
    | Fetched description rows =>
        let results := map (fun row => dict_zip description row []) rows in
        match results with
        | [] => ("Query executed successfully but returned no results.", w')
        | _ =>
            match json_dumps results with
            | inl text => (text, w')
            | inr e => ("Error: " ++ e, w')
            end
        end
    | SqliteError e => ("SQL Error: " ++ e, w')
    | OtherException e => ("Error: " ++ e, w')
    end.

End WithEngine.

(** ** Vocabulary of the properties, and sample surroundings *)

(** The columns a table has after the script: the ones it had, or the
    script's when the table was missing. *)
Definition columns_after (name : string) (cols : list column)
    (db : gmap string table) : list column :=
  match db !! name with
  | Some t => columns t
  | None => cols
  end.

(** The rows [rs] can be added one by one to a table holding [acc]. *)
Fixpoint insertable (cols : list column) (acc rs : list (list sqlval)) : bool :=
  match rs with
  | [] => true
  | r :: rs' =>
      (length r =? length cols)%nat
      && negb (existsb (unique_conflict cols r) acc)
      && insertable cols (acc ++ [r]) rs'
  end.


(** Another one, whose [products] table has three columns. *)
Definition narrow_db : gmap string table :=
  {[ "products" :=
       Table [ Column "sku" EmptyString false; Column "label" EmptyString false; Column "qty" EmptyString false ]
             [ [VText "X-1"; VText "old stock"; VInt 3] ] ]}.

(** An engine for the examples: every statement yields one row. *)
Definition one_row_engine (query : string) (db : gmap string table)
  : exec_outcome * gmap string table :=
  (Fetched ["n"] [[VInt 1]], db).

Definition dumps_stub (results : list (list (string * sqlval))) : string + string :=
  inl "[{...}]".

End SqlAgent.

(* ================================================================== *)
(** * 09_memory_context.py: [MemoryManager]                            *)
(* ================================================================== *)

Module Memory.
Import PyStr PyData.

(** The files under the working directory (path to text, POSIX
    semantics) and the number of times the clock has been read. *)
Record world : Type := World {
  fs : gmap string string;
  ticks : nat
}.

Record MemoryManager : Type := Manager {
  user_id : string;
  memory_file : string;
  memory : json
}.

Definition MEMORY_DIR : string := "agent_memory".

(** [MEMORY_DIR / f"{user_id}_memory.json"] *)
Definition memory_path (user_id : string) : string :=
  MEMORY_DIR ++ "/" ++ user_id ++ "_memory.json".

(** [PurePath.suffix] and [PurePath.with_suffix], for a path whose last
    dot lies in its final component (every [memory_path] is one): the
    suffix starts at the last dot unless that dot begins or ends the name. *)
Definition with_suffix (path suffix : string) : string :=
  let i := rfind path "." in
  if (0 <? i)%Z && (i <? len path - 1)%Z
  then slice path 0 i ++ suffix
  else path ++ suffix.

(** [Path.rename]: the target is replaced when it exists. *)
Definition rename (src dst : string) (files : gmap string string) : gmap string string :=
  match files !! src with
  | Some text => <[dst := text]> (delete src files)
  | None => files
  end.

(** The dictionary a manager starts from. *)
Definition fresh_memory (user_id created_at : string) : json :=
  JDict [ ("user_id", JStr user_id);
          ("preferences", JDict []);
          ("conversation_history", JList []);
          ("facts", JDict []);
          ("created_at", JStr created_at);
          ("last_interaction", JNull) ].

(** The exceptions the methods let through, and how a call ends.  An
    exception does not undo what the call has done before it: the
    functions below return, beside the outcome, the manager and the world
    as the call left them. *)
Inductive exn : Type := KeyError | TypeError | AttributeError | OSError.

Inductive outcome (A : Type) : Type :=
| Returned (a : A)
| Raised (e : exn).
Arguments Returned {A} a.
Arguments Raised {A} e.

(** [m[k]] and [m[k] = v] on a value that has to be a [dict]; [None] is
    the [KeyError] or [TypeError] Python raises. *)
Definition getitem (m : json) (k : string) : option json :=
  match m with
  | JDict d => dict_get k d
  | _ => None
  end.

Definition setitem (m : json) (k : string) (v : json) : option json :=
  match m with
  | JDict d => Some (JDict (dict_set k v d))
  | _ => None
  end.

(** The exception of a failed [m[k]]: a [dict] lacks the key, any other
    value does not take a string index. *)
Definition getitem_error (m : json) : exn :=
  match m with
  | JDict _ => KeyError
  | _ => TypeError
  end.

Section WithCodec.
(** [json.load] on the text of a file ([None]: [JSONDecodeError] or
    another [ValueError]), [json.dump(..., indent=2)], and
    [datetime.now().isoformat()] at each reading of the clock. *)
Variable json_load : string -> option json.
Variable json_dump : json -> string.
Variable isoformat_now : nat -> string.

Definition load_memory (uid file : string) (w : world) : json * world :=
  match fs w !! file with
  | Some text =>
      match json_load text with
      | Some data => (data, w)
      | None =>
          let backup_file := with_suffix file ".json.backup" in
          let w := World (rename file backup_file (fs w)) (ticks w) in
          (fresh_memory uid (isoformat_now (ticks w)), World (fs w) (S (ticks w)))
      end
  | None =>
      (fresh_memory uid (isoformat_now (ticks w)), World (fs w) (S (ticks w)))
  end.

(** [MemoryManager(user_id)] *)
Definition init (uid : string) (w : world) : MemoryManager * world :=
  let file := memory_path uid in
  let '(data, w) := load_memory uid file w in
  (Manager uid file data, w).

(** [open(path, 'w')] at a given moment: whether the file can be opened
    for writing.  It cannot when its directory does not exist (a
    [user_id] holding a [/]) or may not be written to. *)
Variable open_w : string -> world -> bool.

(** The clock is read and [last_interaction] set before the file is
    opened: a failing [open] leaves the files alone and the manager
    changed. *)
Definition save_memory (self : MemoryManager) (w : world)
  : outcome unit * MemoryManager * world :=
  let now := isoformat_now (ticks w) in
  let w := World (fs w) (S (ticks w)) in
  match setitem (memory self) "last_interaction" (JStr now) with
  | None => (Raised TypeError, self, w)
  | Some data =>
      let self := Manager (user_id self) (memory_file self) data in
      if open_w (memory_file self) w
      then (Returned tt, self,
            World (<[memory_file self := json_dump data]> (fs w)) (ticks w))
      else (Raised OSError, self, w)
  end.

(** One entry of the conversation history. *)
Definition entry (role message timestamp : string) : json :=
  JDict [ ("role", JStr role); ("message", JStr message);
          ("timestamp", JStr timestamp) ].

Definition add_conversation (role message : string) (self : MemoryManager) (w : world)
  : outcome unit * MemoryManager * world :=
  match getitem (memory self) "conversation_history" with
  | Some (JList history) =>
      let history := (history ++ [entry role message (isoformat_now (ticks w))])%list in
      let w := World (fs w) (S (ticks w)) in
      (* Keep only last 50 messages *)
      let history := if (50 <? length history)%nat
                     then list_from history (-50)%Z
                     else history in
      match setitem (memory self) "conversation_history" (JList history) with
      | Some data => save_memory (Manager (user_id self) (memory_file self) data) w
      | None => (Raised TypeError, self, w)
      end
  | Some _ => (Raised AttributeError, self, w)
  | None => (Raised (getitem_error (memory self)), self, w)
  end.

(** A sequence of [add_conversation] calls on one manager, each made
    whether or not the one before it raised. *)
Fixpoint add_conversations (calls : list (string * string)) (self : MemoryManager)
    (w : world) : list (outcome unit) * MemoryManager * world :=
  match calls with
  | [] => ([], self, w)
  | (role, message) :: calls' =>
      let '(r, self, w) := add_conversation role message self w in
      let '(rs, self, w) := add_conversations calls' self w in
      (r :: rs, self, w)
  end.

End WithCodec.

(** [self.memory["conversation_history"]] when it is a list. *)
Definition conversation_history (self : MemoryManager) : option (list json) :=
  match getitem (memory self) "conversation_history" with
  | Some (JList history) => Some history
  | _ => None
  end.

(** ** Vocabulary of the properties, and sample surroundings *)

(** A codec for the examples: the text [{}] is the only one that parses. *)
Definition load_stub (text : string) : option json :=
  if String.eqb text "{}" then Some (JDict []) else None.

Definition dump_stub (data : json) : string := "{...}".

Definition clock (n : nat) : string := "2025-10-01T09:00:00".

(** Every file can be opened for writing; none can. *)
Definition writable (path : string) (w : world) : bool := true.

Definition read_only (path : string) (w : world) : bool := false.

(** The last [n] elements of a list (all of it when it is shorter). *)
Definition last_n {A} (n : nat) (l : list A) : list A :=
  drop (length l - n) l.

(** The entries a sequence of calls adds, the first of them made when
    the clock has been read [t] times: every call reads the clock twice,
    for the entry and for [last_interaction]. *)
Fixpoint entries_from (isoformat_now : nat -> string) (t : nat)
    (calls : list (string * string)) : list json :=
  match calls with
  | [] => []
  | (role, message) :: calls' =>
      entry role message (isoformat_now t)
      :: entries_from isoformat_now (S (S t)) calls'
  end.

(** ** The other methods, and the tools built on them *)

(** The truth value Python gives a value in [if value:]. *)
Definition truthy (v : json) : bool :=
  match v with
  | JNull => false
  | JBool b => b
  | JNum n => negb (n =? 0)%Z
  | JStr s => match s with EmptyString => false | _ => true end
  | JList l => match l with [] => false | _ => true end
  | JDict d => match d with [] => false | _ => true end
  end.

(** The module-level state of the script: the files and the clock, and the
    dictionary [memory_managers]. *)
Record app : Type := App {
  env : world;
  memory_managers : gmap string MemoryManager
}.

Section Methods.
Variable json_load : string -> option json.
Variable json_dump : json -> string.
Variable isoformat_now : nat -> string.
Variable open_w : string -> world -> bool.
(** [str(value)] for a value that is not a string. *)
Variable py_str : json -> string.

(** [self.memory["preferences"][key] = value; self.save_memory()] *)
Definition add_preference (key : string) (value : json) (self : MemoryManager)
    (w : world) : outcome unit * MemoryManager * world :=
  match getitem (memory self) "preferences" with
  | Some (JDict preferences) =>
      match setitem (memory self) "preferences" (JDict (dict_set key value preferences)) with
      | Some data =>
          save_memory json_dump isoformat_now open_w
                      (Manager (user_id self) (memory_file self) data) w
      | None => (Raised TypeError, self, w)
      end
  | Some _ => (Raised TypeError, self, w)
  | None => (Raised (getitem_error (memory self)), self, w)
  end.

(** [self.memory["preferences"].get(key)]; Python's [None] is [JNull]. *)
Definition get_preference (key : string) (self : MemoryManager) : outcome json :=
  match getitem (memory self) "preferences" with
  | Some (JDict preferences) => Returned (default JNull (dict_get key preferences))
  | Some _ => Raised AttributeError
  | None => Raised (getitem_error (memory self))
  end.

(** The record is built, and the clock read for it, before
    [self.memory["facts"]] is looked up. *)
Definition add_fact (key : string) (value : json) (self : MemoryManager)
    (w : world) : outcome unit * MemoryManager * world :=
  let fact := JDict [ ("value", value); ("timestamp", JStr (isoformat_now (ticks w))) ] in
  let w := World (fs w) (S (ticks w)) in
  match getitem (memory self) "facts" with
  | Some (JDict facts) =>
      match setitem (memory self) "facts" (JDict (dict_set key fact facts)) with
      | Some data =>
          save_memory json_dump isoformat_now open_w
                      (Manager (user_id self) (memory_file self) data) w
      | None => (Raised TypeError, self, w)
      end
  | Some _ => (Raised TypeError, self, w)
  | None => (Raised (getitem_error (memory self)), self, w)
  end.

(** [fact = self.memory["facts"].get(key); fact["value"] if fact else None] *)
Definition get_fact (key : string) (self : MemoryManager) : outcome json :=
  match getitem (memory self) "facts" with
  | Some (JDict facts) =>
      let fact := default JNull (dict_get key facts) in
      if truthy fact
      then match getitem fact "value" with
           | Some value => Returned value
           | None => Raised (getitem_error fact)
           end
      else Returned JNull
  | Some _ => Raised AttributeError
  | None => Raised (getitem_error (memory self))
  end.

(** [get_memory_manager(user_id)]: the manager kept for the user, made
    (and kept) on the first request. *)
Definition get_memory_manager (uid : string) (a : app) : MemoryManager * app :=
  match memory_managers a !! uid with
  | Some manager => (manager, a)
  | None =>
      let '(manager, w) := init json_load isoformat_now uid (env a) in
      (manager, App w (<[uid := manager]> (memory_managers a)))
  end.

(** The tools.  A manager is one object, shared with [memory_managers]:
    what a tool does to it shows in the dictionary, also when the tool
    raises. *)
Definition remember_preference (uid preference_name preference_value : string)
    (a : app) : outcome string * app :=
  let '(manager, a) := get_memory_manager uid a in
  let '(r, manager, w) :=
    add_preference preference_name (JStr preference_value) manager (env a) in
  let a := App w (<[uid := manager]> (memory_managers a)) in
  match r with
  | Returned _ =>
      (Returned ("I'll remember that your " ++ preference_name ++ " is "
                   ++ preference_value ++ "."), a)
  | Raised e => (Raised e, a)
  end.

Definition format_value (v : json) : string :=
  match v with
  | JStr s => s
  | _ => py_str v
  end.

Definition recall_preference (uid preference_name : string) (a : app)
  : outcome string * app :=
  let '(manager, a) := get_memory_manager uid a in
  match get_preference preference_name manager with
  | Returned value =>
      if truthy value
      then (Returned ("Your " ++ preference_name ++ " is " ++ format_value value ++ "."), a)
      else (Returned ("I don't have a stored preference for " ++ preference_name ++ "."), a)
  | Raised e => (Raised e, a)
  end.

Definition remember_fact (uid fact_name fact_value : string) (a : app)
  : outcome string * app :=
  let '(manager, a) := get_memory_manager uid a in
  let '(r, manager, w) := add_fact fact_name (JStr fact_value) manager (env a) in
  let a := App w (<[uid := manager]> (memory_managers a)) in
  match r with
  | Returned _ =>
      (Returned ("I'll remember that " ++ fact_name ++ ": " ++ fact_value ++ "."), a)
  | Raised e => (Raised e, a)
  end.

Definition recall_fact (uid fact_name : string) (a : app) : outcome string * app :=
  let '(manager, a) := get_memory_manager uid a in
  match get_fact fact_name manager with
  | Returned value =>
      if truthy value
      then (Returned (fact_name ++ ": " ++ format_value value), a)
      else (Returned ("I don't have information about " ++ fact_name ++ "."), a)
  | Raised e => (Raised e, a)
  end.


End Methods.

(** A path can be opened for writing when its directory is
    [agent_memory] itself: no [/] after the one that ends [MEMORY_DIR]. *)
Definition flat_dir (path : string) (w : world) : bool :=
  negb (contains "/" (String.substring 13 (String.length path) path)).

(** A codec for one value: it writes a fixed text and reads it back as
    [data]. *)
Definition dump_one (data : json) : string := "{saved}".

Definition load_one (data : json) (text : string) : option json :=
  if String.eqb text "{saved}" then Some data else None.

End Memory.

(* ================================================================== *)
(** * 12_rag_pipeline.py: [DocumentChunker], [SimpleVectorStore]       *)
(* ================================================================== *)

Module Rag.
Import PyStr PyData.

(** ** [DocumentChunker.chunk_text] *)

Record chunk : Type := Chunk {
  chunk_id : string;
  chunk_body : string;
  chunk_start : Z;
  chunk_end : Z;
  chunk_length : Z
}.

Definition newline : ascii := ascii_of_nat 10.

Section WithDigest.
(** [hashlib.md5(s.encode()).hexdigest()[:8]] *)
Variable md5_hex8 : string -> string.

(** One pass through the body of the [while] loop, from the loop's
    variables [start] and [chunks] to their values at the end of the
    pass. *)
Definition chunk_step (text : string) (chunk_size overlap : Z)
    (st : Z * list chunk) : Z * list chunk :=
  let '(start, chunks) := st in
  let end_ := (start + chunk_size)%Z in
  let end_ :=
    if (end_ <? len text)%Z then
      let last_period := rfind (slice text start end_) "." in
      let last_newline := rfind (slice text start end_) newline in
      let boundary := Z.max last_period last_newline in
      if (0 <? boundary)%Z then (start + boundary + 1)%Z else end_
    else end_ in
  let chunk_text := strip (slice text start end_) in
  let chunks :=
    match chunk_text with
    | EmptyString => chunks
    | _ => (chunks ++ [Chunk (md5_hex8 chunk_text) chunk_text start end_ (len chunk_text)])%list
    end in
  let start := if (end_ <? len text)%Z then (end_ - overlap)%Z else end_ in
  (start, chunks).

(** The loop, run for at most [fuel] passes: [Some chunks] when the
    condition [start < len(text)] fails within that many passes, [None]
    when the loop is still running after them. *)
Fixpoint chunk_loop (fuel : nat) (text : string) (chunk_size overlap : Z)
    (st : Z * list chunk) : option (list chunk) :=
  if (fst st <? len text)%Z then
    match fuel with
    | O => None
    | S fuel' => chunk_loop fuel' text chunk_size overlap (chunk_step text chunk_size overlap st)
    end
  else Some (snd st).

Definition chunk_text (fuel : nat) (text : string) (chunk_size overlap : Z)
  : option (list chunk) :=
  chunk_loop fuel text chunk_size overlap (0%Z, []).

End WithDigest.

(** ** [SimpleVectorStore] *)

Record document : Type := Document {
  doc_id : string;
  doc_text : string;
  doc_metadata : list (string * json);
  doc_added_at : string
}.

Record store : Type := Store {
  documents : list document;
  index : gmap string (list string)
}.

(** [SimpleVectorStore()] *)
Definition empty_store : store := Store [] ∅.

(** [for word in set(words): ... self.index[word].append(doc_id)].  The
    words of a set are pairwise different, so the order in which the loop
    visits them does not show in the index. *)
Definition index_word (id : string) (idx : gmap string (list string)) (word : string)
  : gmap string (list string) :=
  match idx !! word with
  | None => <[word := [id]]> idx
  | Some ids => <[word := (ids ++ [id])%list]> idx
  end.

Definition add_document (id text : string) (metadata : option (list (string * json)))
    (added_at : string) (self : store) : store :=
  let doc := Document id text (default [] metadata) added_at in
  let words := split (lower text) in
  Store (documents self ++ [doc])%list
        (foldl (index_word id) (index self) (remove_dups words)).

(** [scores[doc_id] = scores.get(doc_id, 0) + 1] *)
Definition bump (scores : list (string * nat)) (id : string) : list (string * nat) :=
  dict_set id (default 0 (dict_get id scores) + 1) scores.

Definition score_word (idx : gmap string (list string))
    (scores : list (string * nat)) (word : string) : list (string * nat) :=
  match idx !! word with
  | Some ids => foldl bump scores ids
  | None => scores
  end.

(** [sorted(items, key=lambda x: x[1], reverse=True)]: by decreasing
    score, entries of equal score in their original order. *)
Fixpoint insert_desc (x : string * nat) (l : list (string * nat)) : list (string * nat) :=
  match l with
  | [] => [x]
  | y :: l' => if (snd x <? snd y)%nat then y :: insert_desc x l' else x :: l
  end.

Definition sorted_desc (l : list (string * nat)) : list (string * nat) :=
  foldr insert_desc [] l.

(** [next((d for d in self.documents if d["id"] == doc_id), None)] *)
Definition find_doc (docs : list document) (id : string) : option document :=
  List.find (fun d => String.eqb (doc_id d) id) docs.

(** A result is the document with its [relevance_score]. *)
Definition search (query : string) (top_k : Z) (self : store)
  : list (document * nat) :=
  let query_words := split (lower query) in
  let scores := foldl (score_word (index self)) [] query_words in
  let sorted_docs := list_upto (sorted_desc scores) top_k in
  flat_map (fun '(id, score) =>
              match find_doc (documents self) id with
              | Some doc => [(doc, score)]
              | None => []
              end) sorted_docs.

(** The store after [add_document] for each document of a list, in order. *)
Definition add_all (docs : list document) (self : store) : store :=
  foldl (fun s d => add_document (doc_id d) (doc_text d) (Some (doc_metadata d))
                                 (doc_added_at d) s) self docs.

(** ** Vocabulary of the properties, and sample surroundings *)

Fixpoint repeat_char (c : ascii) (n : nat) : string :=
  match n with
  | O => EmptyString
  | S n' => String c (repeat_char c n')
  end.

(** ['a' * 49 + '.' + 'a' * 500]: the only sentence boundary of the first
    window is at index 49. *)
Definition stuck_text : string :=
  repeat_char "a" 49 ++ "." ++ repeat_char "a" 500.

Definition digest_stub (s : string) : string := "d41d8cd9".

Fixpoint all_chars (P : ascii -> bool) (s : string) : bool :=
  match s with
  | EmptyString => true
  | String c s' => P c && all_chars P s'
  end.

Definition nonspace (c : ascii) : bool := negb (isspace c).

Definition lower_fixed (c : ascii) : bool := Ascii.eqb (lower_char c) c.

(** [self.index.get(word, [])] *)
Definition postings (idx : gmap string (list string)) (w : string) : list string :=
  default [] (idx !! w).

(** Is [w] one of the words of the document? *)
Definition has_word (w : string) (d : document) : bool :=
  bool_decide (w ∈ split (lower (doc_text d))).

(** The size of the intersection of the query's set of words with the
    document's set of words (the measure the specification names). *)
Definition token_overlap (query : string) (d : document) : nat :=
  length (List.filter (fun w => has_word w d) (remove_dups (split (lower query)))).

(** The number of words of the query, repeated words counted as often as
    they occur, that are words of the document. *)
Definition score (query : string) (d : document) : nat :=
  length (List.filter (fun w => has_word w d) (split (lower query))).

(** A count that is zero has no entry in the [scores] dictionary. *)
Definition entry_of (n : nat) : option nat :=
  match n with O => None | S _ => Some n end.

Definition count_id (id : string) (ids : list string) : nat :=
  length (List.filter (String.eqb id) ids).

(** How often the index lists [id] under the words of the query. *)
Definition hits (idx : gmap string (list string)) (query_words : list string)
    (id : string) : nat :=
  sum_list (map (fun w => count_id id (postings idx w)) query_words).

(** The [scores] dictionary holds the counts [f] when it has an entry
    for exactly the identifiers with a count above zero. *)
Definition holds (scores : list (string * nat)) (f : string -> nat) : Prop :=
  NoDup (map fst scores) /\ forall id, dict_get id scores = entry_of (f id).

(** [x] may stand before [y]: its score is not the smaller one. *)
Definition before {A} (x y : A * nat) : Prop := snd y <= snd x.

(** [r] is what [search] makes of the entry [x] of the sorted scores. *)
Definition result_of (docs : list document) (x : string * nat) (r : document * nat) : Prop :=
  find_doc docs (fst x) = Some (fst r) /\ snd r = snd x.

(** The dictionary [scores] that [search] builds for a query on the store
    holding [docs]. *)
Definition scores_of (docs : list document) (query : string) : list (string * nat) :=
  foldl (score_word (index (add_all docs empty_store))) [] (split (lower query)).

(** ** [RAGPipeline] *)

(** [str(i)] for a count. *)
Definition str_of_nat (i : nat) : string :=
  DecimalString.NilEmpty.string_of_uint (Nat.to_uint i).

Record RAGPipeline : Type := Pipeline {
  chunk_size : Z;
  chunk_overlap : Z
}.

(** [f"{doc_id}_chunk_{i}"] *)
Definition chunk_doc_id (id : string) (i : nat) : string :=
  id ++ "_chunk_" ++ str_of_nat i.

(** [{**(metadata or {}), "doc_id": doc_id, "chunk_index": i,
      "total_chunks": len(chunks)}] *)
Definition chunk_metadata (metadata : option (list (string * json))) (id : string)
    (i total : nat) : list (string * json) :=
  dict_set "total_chunks" (JNum (Z.of_nat total))
    (dict_set "chunk_index" (JNum (Z.of_nat i))
       (dict_set "doc_id" (JStr id) (default [] metadata))).

(** The loop [for i, chunk in enumerate(chunks)], from index [i] on; the
    state is the global vector store and the number of clock readings. *)
Fixpoint store_chunks (now : nat -> string) (metadata : option (list (string * json)))
    (id : string) (total i : nat) (chunks : list chunk) (st : store * nat)
  : store * nat :=
  match chunks with
  | [] => st
  | c :: chunks' =>
      let '(vector_store, t) := st in
      store_chunks now metadata id total (S i) chunks'
        (add_document (chunk_doc_id id i) (chunk_body c)
                      (Some (chunk_metadata metadata id i total)) (now t) vector_store,
         S t)
  end.

(** [RAGPipeline.ingest_document]: [None] when the chunker is still
    running after [fuel] passes of its loop. *)
Definition ingest_document (md5_hex8 : string -> string) (now : nat -> string)
    (fuel : nat) (self : RAGPipeline) (id text : string)
    (metadata : option (list (string * json))) (st : store * nat)
  : option (nat * (store * nat)) :=
  match chunk_text md5_hex8 fuel text (chunk_size self) (chunk_overlap self) with
  | None => None
  | Some chunks =>
      Some (length chunks, store_chunks now metadata id (length chunks) 0 chunks st)
  end.

(** [RAGPipeline.retrieve] *)
Definition retrieve (query : string) (top_k : Z) (vector_store : store)
  : list (document * nat) :=
  search query top_k vector_store.

(** A character other than [c]. *)
Definition other_than (c : ascii) (d : ascii) : bool := negb (Ascii.eqb d c).

Definition clock_stub (n : nat) : string := "2025-10-01T09:00:00".

End Rag.

(* ================================================================== *)
(** * 04_fastapi_chatbot.py: [POST /chat]                              *)
(* ================================================================== *)

Module ChatApi.
Import PyData.

Record ChatMessage : Type := Message {
  message : string;
  session_id : string
}.

Record JSONResponse : Type := Response {
  status_code : Z;
  content : list (string * json)
}.

Definition system_prompt : string :=
  "You are a helpful and friendly AI assistant. Be concise but informative.".

Definition apology : string :=
  "I apologize, but I couldn't generate a response.".

Section WithAgent.
(** The agent framework: the state of an agent, its constructor ([inr]:
    the exception it raised), and a call, which may change the agent and
    either returns ([inl]) the text [str(response)], [None] for a
    response that is [None], or raises ([inr]). *)
Variable Agent : Type.
Variable Agent_new : string -> Agent + string.
Variable Agent_call : Agent -> string -> Agent * (option string + string).
Variable now : nat -> string.

Record session : Type := Session {
  agent : Agent;
  created_at : string
}.

Record world : Type := World {
  sessions : gmap string session;
  ticks : nat
}.

Definition error_response (e : string) : JSONResponse :=
  Response 500 [("error", JStr e)].

Definition chat (chat_message : ChatMessage) (w : world) : JSONResponse * world :=
  let sid := session_id chat_message in
  (* Get or create session *)
  let created :=
    match sessions w !! sid with
    | Some s => inl (s, w)
    | None =>
        match Agent_new system_prompt with
        | inl a =>
            let s := Session a (now (ticks w)) in
            inl (s, World (<[sid := s]> (sessions w)) (S (ticks w)))
        | inr e => inr e
        end
    end in
  match created with
  | inr e => (error_response e, w)
  | inl (s, w) =>
      let '(a, response) := Agent_call (agent s) (message chat_message) in
      let w := World (<[sid := Session a (created_at s)]> (sessions w)) (ticks w) in
      match response with
      | inr e => (error_response e, w)
      | inl response =>
          let response_text := default apology response in
          (Response 200 [("response", JStr response_text); ("session_id", JStr sid)], w)
      end
  end.

End WithAgent.

(** ** Vocabulary of the properties, and sample surroundings *)

(** An agent that repeats what it is told, one that answers with [None],
    and one whose call raises. *)
Definition echo_new (prompt : string) : unit + string := inl tt.

Definition echo_call (a : unit) (msg : string) : unit * (option string + string) :=
  (a, inl (Some ("You said: " ++ msg))).

Definition silent_call (a : unit) (msg : string) : unit * (option string + string) :=
  (a, inl None).

Definition failing_call (a : unit) (msg : string) : unit * (option string + string) :=
  (a, inr "Unable to locate credentials").

Definition clock (n : nat) : string := "2025-10-01T09:00:00".

(** ** [GET /health] *)

(** [{"status": "healthy", "active_sessions": len(sessions)}] *)
Definition health {Agent : Type} (w : world Agent) : list (string * json) :=
  [ ("status", JStr "healthy");
    ("active_sessions", JNum (Z.of_nat (size (sessions Agent w)))) ].

(** The body of a response built from what the agent's call gave. *)
Definition response_for (sid : string) (outcome : option string + string) : JSONResponse :=
  match outcome with
  | inl response =>
      Response 200 [("response", JStr (default apology response)); ("session_id", JStr sid)]
  | inr e => Response 500 [("error", JStr e)]
  end.

End ChatApi.

(* ================================================================== *)
(** * Properties                                                       *)
(* ================================================================== *)

Module PyStrFacts.
Import PyStr.

Example strip_ex : strip "  select 1 " = "select 1".
Proof. reflexivity. Qed.

Example split_ex : split "  The  quick" = ["The"; "quick"] /\ split " " = [].
Proof. split; reflexivity. Qed.

Example slice_ex : slice "abcdef" (-2) 100 = "ef" /\ slice "abcdef" 4 2 = EmptyString.
Proof. split; reflexivity. Qed.

Example rfind_ex : rfind "a.b.c" "." = 3%Z /\ rfind "abc" "." = (-1)%Z.
Proof. split; reflexivity. Qed.

Example upper_ex : upper "Select * from t" = "SELECT * FROM T".
Proof. reflexivity. Qed.

Lemma find_existsb {A} (f : A -> bool) (l : list A) :
  existsb f l = match List.find f l with Some _ => true | None => false end.
Proof.
  induction l as [|a l IH]; simpl; [reflexivity|].
  destruct (f a); simpl; auto.
Qed.

End PyStrFacts.

Module PyDataFacts.
Import PyData.

Lemma dict_get_set_eq {V} (k : string) (v : V) (d : list (string * V)) :
  dict_get k (dict_set k v d) = Some v.
Proof.
  induction d as [|[k' v'] d IH]; simpl.
  - by rewrite String.eqb_refl.
  - destruct (String.eqb k k') eqn:E; simpl; rewrite E; [reflexivity|exact IH].
Qed.

Lemma dict_get_set_ne {V} (k k0 : string) (v : V) (d : list (string * V)) :
  k <> k0 -> dict_get k (dict_set k0 v d) = dict_get k d.
Proof.
  intros Hne. induction d as [|[k' v'] d IH]; simpl.
  - destruct (String.eqb_spec k k0); [contradiction|reflexivity].
  - destruct (String.eqb_spec k0 k') as [->|Hk]; simpl.
    + destruct (String.eqb_spec k k'); [contradiction|reflexivity].
    + destruct (String.eqb k k'); [reflexivity|exact IH].
Qed.

End PyDataFacts.

Module SentimentFacts.
Import PyStr Sentiment.

Example sentiment_demo :
  analyze_sentiment "This hackathon is going to be amazing!" = "Positive sentiment".
Proof. reflexivity. Qed.

Example sentiment_substring :
  analyze_sentiment "Goodness, that was BAD and awful" = "Negative sentiment".
Proof. reflexivity. Qed.

Lemma count_words_length words t :
  count_words words t = length (List.filter (fun w => contains w t) words).
Proof.
  unfold count_words.
  induction (List.filter (fun w => contains w t) words) as [|w l IH]; simpl; congruence.
Qed.

(** C10.  [analyze_sentiment] is a total function whose value is one of
    the three sentiment strings; it is ['Positive sentiment'] exactly when
    more of the four positive words than of the four negative words occur
    as substrings of [text.lower()] (each word counted once),
    ['Negative sentiment'] exactly when fewer do, and ['Neutral sentiment']
    exactly when the two counts agree. *)
Theorem analyze_sentiment_spec (text : string) :
  let pos := length (List.filter (fun w => contains w (lower text))
                       ["good"; "great"; "excellent"; "amazing"]) in
  let neg := length (List.filter (fun w => contains w (lower text))
                       ["bad"; "poor"; "terrible"; "awful"]) in
  let r := analyze_sentiment text in
  (r = "Positive sentiment" \/ r = "Negative sentiment" \/ r = "Neutral sentiment") /\
  (r = "Positive sentiment" <-> neg < pos) /\
  (r = "Negative sentiment" <-> pos < neg) /\
  (r = "Neutral sentiment" <-> pos = neg).
Proof.
  intros pos neg r. subst r. unfold analyze_sentiment.
  rewrite !count_words_length.
  change (length (List.filter (fun w => contains w (lower text)) positive_words)) with pos.
  change (length (List.filter (fun w => contains w (lower text)) negative_words)) with neg.
  destruct (Nat.ltb_spec neg pos) as [Hp|Hp].
  - repeat split; try (intros; lia); auto; discriminate.
  - destruct (Nat.ltb_spec pos neg) as [Hn|Hn].
    + repeat split; try (intros; lia); auto; discriminate.
    + repeat split; try (intros; lia); auto; discriminate.
Qed.

End SentimentFacts.

Module CodeExecFacts.
Import PyStr PyStrFacts CodeExec.

Example blocked_ex :
  execute_python_code unit temp_ok run_echo unlink_unit "Import OS; print(1)" tt
  = (Returns (security_error "import os"), [], tt).
Proof. reflexivity. Qed.

Example allowed_ex :
  execute_python_code unit temp_ok run_echo unlink_unit "print('hello')" tt
  = (Returns "hello",
     [WriteTemp "print('hello')"; Spawn "/tmp/tmpab12cd.py"; Unlink "/tmp/tmpab12cd.py"],
     tt).
Proof. reflexivity. Qed.

(** A script that removes its own file passes the denylist; both
    removals then raise and the second exception leaves the function. *)
Example self_deleting_ex :
  let code := "from pathlib import Path; Path(__file__).unlink()" in
  denylisted code = false
  /\ execute_python_code bool temp_create run_self_deleting unlink_file code false
     = (Raises "[Errno 2] No such file or directory: '/tmp/tmpab12cd.py'",
        [WriteTemp code; Spawn "/tmp/tmpab12cd.py";
         Unlink "/tmp/tmpab12cd.py"; Unlink "/tmp/tmpab12cd.py"],
        false).
Proof. split; reflexivity. Qed.

Lemma denylisted_find (code : string) :
  denylisted code =
  match List.find (fun pattern => contains pattern (lower code)) dangerous_patterns with
  | Some _ => true
  | None => false
  end.
Proof. unfold denylisted. apply find_existsb. Qed.





End CodeExecFacts.

Module SqlAgentFacts.
Import PyStr PyData SqlAgent.

(** ** [setup_database] *)

Lemma create_lookup_same name cols (db : gmap string table) :
  create_table_if_not_exists name cols db !! name
  = Some (Table (columns_after name cols db)
                (match db !! name with Some t => rows t | None => [] end)).
Proof.
  unfold create_table_if_not_exists, columns_after.
  destruct (db !! name) as [[c r]|] eqn:E; simpl.
  - exact E.
  - apply lookup_insert_eq.
Qed.

Lemma create_lookup_other name cols (db : gmap string table) n :
  name ≠ n -> create_table_if_not_exists name cols db !! n = db !! n.
Proof.
  intros Hn. unfold create_table_if_not_exists.
  destruct (db !! name); [reflexivity|]. by apply lookup_insert_ne.
Qed.

Lemma delete_from_some name (db : gmap string table) t :
  db !! name = Some t ->
  delete_from name db = Done (<[name := Table (columns t) []]> db).
Proof. intros E. unfold delete_from. by rewrite E. Qed.

Lemma executemany_insert_inv name rs :
  forall (db db' : gmap string table) t,
    db !! name = Some t ->
    executemany_insert name rs db = Done db' ->
    db' = <[name := Table (columns t) (rows t ++ rs)]> db.
Proof.
  induction rs as [|r rs IH]; intros db db' t Ht H; simpl in H.
  - injection H as <-. rewrite app_nil_r. destruct t. symmetry. by apply insert_id.
  - unfold insert_row in H. rewrite Ht in H.
    destruct (negb _); [discriminate|].
    destruct (existsb _ _); [discriminate|].
    eapply IH in H; [|apply lookup_insert_eq]. simpl in H.
    rewrite insert_insert_eq in H. by rewrite <- app_assoc in H.
Qed.

Lemma executemany_insert_ok name cols rs :
  forall (db : gmap string table) acc,
    db !! name = Some (Table cols acc) ->
    insertable cols acc rs = true ->
    executemany_insert name rs db = Done (<[name := Table cols (acc ++ rs)]> db).
Proof.
  induction rs as [|r rs IH]; intros db acc Ht H; simpl in *.
  - rewrite app_nil_r. f_equal. symmetry. by apply insert_id.
  - apply andb_prop in H as [H H3]. apply andb_prop in H as [H1 H2].
    unfold insert_row. rewrite Ht. simpl. rewrite H1. simpl.
    apply negb_true_iff in H2. rewrite H2.
    erewrite IH; [|apply lookup_insert_eq|exact H3].
    by rewrite insert_insert_eq, <- app_assoc.
Qed.

Example setup_database_fresh :
  exists db', setup_database ∅ = Done db'
    /\ db' !! "products" = Some (Table products_columns products)
    /\ db' !! "orders" = Some (Table orders_columns orders).
Proof. eexists. split; [vm_compute; reflexivity|]. split; reflexivity. Qed.

(** A [products] table that does not take five values makes the script
    raise; the deletions are rolled back and the old row stays. *)
Example setup_database_raises :
  exists e db', setup_database narrow_db = Raised e db'
    /\ option_map rows (db' !! "products")
       = Some [ [VText "X-1"; VText "old stock"; VInt 3] ].
Proof. eexists. eexists. split; [vm_compute; reflexivity|]. reflexivity. Qed.





(** ** [execute_sql_query] *)

Example rejected_ex :
  execute_sql_query one_row_engine dumps_stub "  drop table products" (World ∅ [])
  = (only_select_error, World ∅ []).
Proof. reflexivity. Qed.

Example accepted_ex :
  execute_sql_query one_row_engine dumps_stub " select 1 AS n" (World ∅ [])
  = ("[{...}]", World ∅ [" select 1 AS n"]).
Proof. reflexivity. Qed.

Section Gate.
Variable sqlite_execute :
  string -> gmap string table -> exec_outcome * gmap string table.
Variable json_dumps : list (list (string * sqlval)) -> string + string.

(** What is assumed of the two libraries: the text [json.dumps] returns
    for a list opens with a bracket, and no exception other than an
    [sqlite3.Error] carries the wording of the refusal. *)
Hypothesis json_dumps_text :
  forall results text, json_dumps results = inl text -> startswith text "[" = true.
Hypothesis json_dumps_raise :
  forall results e, json_dumps results = inr e ->
    e <> "Only SELECT queries are allowed for safety reasons.".
Hypothesis sqlite_execute_raise :
  forall query db e db', sqlite_execute query db = (OtherException e, db') ->
    e <> "Only SELECT queries are allowed for safety reasons.".

(** C1.  [execute_sql_query] returns the refusal
    "Error: Only SELECT queries are allowed for safety reasons." exactly
    when [query.strip().upper()] does not start with [SELECT]; in that
    case no statement is run and the database is unchanged, and in the
    other case the query is the one statement run. *)
Theorem execute_sql_query_gate (query : string) (w : world) :
  let '(r, w') := execute_sql_query sqlite_execute json_dumps query w in
  (r = only_select_error <-> startswith (upper (strip query)) "SELECT" = false)
  /\ (startswith (upper (strip query)) "SELECT" = false ->
        w' = w /\ database w' = database w /\ executed w' = executed w)
  /\ (startswith (upper (strip query)) "SELECT" = true ->
        executed w' = (executed w ++ [query])%list).
Proof.
  unfold execute_sql_query.
  destruct (startswith (upper (strip query)) "SELECT") eqn:Hs; simpl.
  - destruct (sqlite_execute query (database w)) as [outcome db'] eqn:He.
    assert (Hne : forall e, e <> "Only SELECT queries are allowed for safety reasons." ->
                   "Error: " ++ e <> only_select_error).
    { intros e Hn H. apply Hn. unfold only_select_error in H. simpl in H. by injection H. }
    destruct outcome as [description rws|e|e].
    + destruct (map _ rws) as [|d ds] eqn:Hm.
      * split; [split; discriminate|]. split; [discriminate|reflexivity].
      * destruct (json_dumps (d :: ds)) as [text|e] eqn:Hj.
        -- split; [|split; [discriminate|reflexivity]].
           split; [|discriminate]. intros ->.
           apply json_dumps_text in Hj. discriminate Hj.
        -- split; [|split; [discriminate|reflexivity]].
           split; [|discriminate]. intros H. exfalso.
           by apply (Hne e (json_dumps_raise _ _ Hj)).
    + split; [split; discriminate|]. split; [discriminate|reflexivity].
    + split; [|split; [discriminate|reflexivity]].
      split; [|discriminate]. intros H. exfalso.
      by apply (Hne e (sqlite_execute_raise _ _ _ _ He)).
  - split; [split; reflexivity|]. split; [by destruct w|discriminate].
Qed.

End Gate.

Lemma execute_sql_query_gate_witness :
  let '(r, w') := execute_sql_query one_row_engine dumps_stub "DELETE FROM orders" (World ∅ []) in
  (r = only_select_error <-> startswith (upper (strip "DELETE FROM orders")) "SELECT" = false)
  /\ (startswith (upper (strip "DELETE FROM orders")) "SELECT" = false ->
        w' = World ∅ [] /\ database w' = ∅ /\ executed w' = [])
  /\ (startswith (upper (strip "DELETE FROM orders")) "SELECT" = true ->
        executed w' = ([] ++ ["DELETE FROM orders"])%list).
Proof.
  apply (execute_sql_query_gate one_row_engine dumps_stub).
  - intros results text [= <-]. reflexivity.
  - intros results e H. discriminate H.
  - intros query db e db' H. discriminate H.
Defined.

End SqlAgentFacts.

Module ChatApiFacts.
Import PyData ChatApi.

Example chat_none_ex :
  fst (chat unit echo_new silent_call clock (Message "hi" "default") (World unit ∅ 0))
  = Response 200 [("response", JStr apology); ("session_id", JStr "default")].
Proof. reflexivity. Qed.

Example chat_error_ex :
  fst (chat unit echo_new failing_call clock (Message "hi" "default") (World unit ∅ 0))
  = Response 500 [("error", JStr "Unable to locate credentials")].
Proof. reflexivity. Qed.

(** C7, as the claim has it, fails: the body of a successful response is
    not the one-key object [{"response": str}]; it carries the session
    identifier as well. *)
Lemma chat_body_has_session_id :
  let resp := fst (chat unit echo_new echo_call clock (Message "hi" "default")
                        (World unit ∅ 0)) in
  status_code resp = 200%Z
  /\ content resp = [("response", JStr "You said: hi"); ("session_id", JStr "default")]
  /\ ~ (exists text, content resp = [("response", JStr text)]).
Proof.
  split; [reflexivity|]. split; [reflexivity|].
  intros [text H]. simpl in H. discriminate H.
Qed.

(** C7, amended.  For every request [{"message", "session_id"}] the
    handler answers either with status 200 and the body
    [{"response": str, "session_id": str}], the session identifier being
    the request's, or with status 500 and the body [{"error": str}].  The
    second happens exactly when creating the session's agent or calling it
    raises, and the body then carries that exception's text; otherwise the
    response text is [str(response)], or the apology when the agent
    returned [None]. *)
Theorem chat_response
    (Agent : Type) (Agent_new : string -> Agent + string)
    (Agent_call : Agent -> string -> Agent * (option string + string))
    (now : nat -> string) (chat_message : ChatMessage) (w : world Agent) :
  let resp := fst (chat Agent Agent_new Agent_call now chat_message w) in
  let called (a : Agent) :=
    match snd (Agent_call a (message chat_message)) with
    | inl response =>
        resp = Response 200 [("response", JStr (default apology response));
                             ("session_id", JStr (session_id chat_message))]
    | inr e => resp = Response 500 [("error", JStr e)]
    end in
  ((status_code resp = 200%Z /\
    exists text, content resp = [("response", JStr text);
                                 ("session_id", JStr (session_id chat_message))])
   \/ (status_code resp = 500%Z /\ exists e, content resp = [("error", JStr e)]))
  /\ match sessions Agent w !! session_id chat_message with
     | Some s => called (agent Agent s)
     | None =>
         match Agent_new system_prompt with
         | inl a => called a
         | inr e => resp = Response 500 [("error", JStr e)]
         end
     end.
Proof.
  unfold chat. cbv zeta.
  destruct (sessions Agent w !! session_id chat_message) as [s|].
  - destruct (Agent_call (agent Agent s) (message chat_message)) as [a [r|e]]; simpl.
    + split; [left|]; eauto.
    + split; [right|]; unfold error_response; simpl; eauto.
  - destruct (Agent_new system_prompt) as [a0|e]; simpl.
    + destruct (Agent_call a0 (message chat_message)) as [a [r|e]]; simpl.
      * split; [left|]; eauto.
      * split; [right|]; unfold error_response; simpl; eauto.
    + split; [right|]; unfold error_response; simpl; eauto.
Qed.

End ChatApiFacts.

Module MemoryFacts.
Import PyStr PyData PyDataFacts Memory.

(** ** Strings and paths *)

Lemma rfind_from_shift (c : ascii) (s : string) :
  forall k j, (0 <= k)%Z -> (0 <= j)%Z ->
    rfind_from k c s
    = if (0 <=? rfind_from j c s)%Z then (rfind_from j c s - j + k)%Z else (-1)%Z.
Proof.
  induction s as [|d s IH]; intros k j Hk Hj; simpl.
  - reflexivity.
  - rewrite (IH (k + 1)%Z (j + 1)%Z) by lia.
    destruct (0 <=? rfind_from (j + 1) c s)%Z eqn:E.
    + rewrite E. pose proof (proj1 (Z.leb_le _ _) E) as E'.
      assert ((0 <=? rfind_from (j + 1) c s - (j + 1) + (k + 1))%Z = true) as ->.
      { apply Z.leb_le.
        pose proof (IH (j + 1)%Z 0%Z ltac:(lia) ltac:(lia)) as H.
        destruct (0 <=? rfind_from 0 c s)%Z eqn:E0; [apply Z.leb_le in E0|]; lia. }
      lia.
    + simpl. destruct (Ascii.eqb d c).
      * assert ((0 <=? j)%Z = true) as -> by (apply Z.leb_le; lia). lia.
      * reflexivity.
Qed.

Lemma rfind_from_app (c : ascii) (s2 : string) :
  (0 <= rfind s2 c)%Z ->
  forall s1 k, (0 <= k)%Z ->
    rfind_from k c (s1 ++ s2) = (k + len s1 + rfind s2 c)%Z.
Proof.
  intros H2 s1. induction s1 as [|d s1 IH]; intros k Hk.
  - change (EmptyString ++ s2) with s2.
    rewrite (rfind_from_shift c s2 k 0 Hk (Z.le_refl 0)).
    fold (rfind s2 c). apply Z.leb_le in H2. rewrite H2. unfold len. simpl. lia.
  - change (String d s1 ++ s2) with (String d (s1 ++ s2)).
    cbn [rfind_from]. rewrite IH by lia.
    assert ((0 <=? k + 1 + len s1 + rfind s2 c)%Z = true) as ->.
    { apply Z.leb_le. unfold len. lia. }
    unfold len. cbn [String.length]. lia.
Qed.

Lemma length_append (s1 s2 : string) :
  String.length (s1 ++ s2) = String.length s1 + String.length s2.
Proof. induction s1 as [|d s1 IH]; simpl; [reflexivity|by rewrite IH]. Qed.

Lemma substring_app_head (s1 s2 : string) (n : nat) :
  String.substring 0 (String.length s1 + n) (s1 ++ s2) = s1 ++ String.substring 0 n s2.
Proof. induction s1 as [|d s1 IH]; simpl; [reflexivity|]. by rewrite IH. Qed.

Lemma append_assoc (s1 s2 s3 : string) : (s1 ++ s2) ++ s3 = s1 ++ (s2 ++ s3).
Proof.
  induction s1 as [|d s1 IH]; [reflexivity|].
  change (String d ((s1 ++ s2) ++ s3) = String d (s1 ++ (s2 ++ s3))).
  by rewrite IH.
Qed.

(** The backup of a user's memory file is the file's own path followed
    by [.backup]. *)
Lemma with_suffix_memory_path (uid : string) :
  with_suffix (memory_path uid) ".json.backup" = memory_path uid ++ ".backup".
Proof.
  unfold with_suffix, memory_path.
  set (pre := MEMORY_DIR ++ "/" ++ uid).
  assert (Hp : MEMORY_DIR ++ "/" ++ uid ++ "_memory.json" = pre ++ "_memory.json").
  { subst pre. by rewrite !append_assoc. }
  rewrite Hp. unfold rfind.
  rewrite (rfind_from_app "." "_memory.json") by (vm_compute; discriminate || lia).
  change (rfind "_memory.json" ".") with 7%Z.
  assert (Hl : len (pre ++ "_memory.json") = (len pre + 12)%Z).
  { unfold len. rewrite length_append. simpl. lia. }
  rewrite Hl.
  assert ((0 <? 0 + len pre + 7)%Z = true) as -> by (apply Z.ltb_lt; unfold len; lia).
  assert ((0 + len pre + 7 <? len pre + 12 - 1)%Z = true) as ->
    by (apply Z.ltb_lt; unfold len; lia).
  simpl andb. cbv iota.
  unfold slice. rewrite Hl. unfold clamp.
  assert ((0 + len pre + 7 <? 0)%Z = false) as -> by (apply Z.ltb_ge; unfold len; lia).
  change (0 <? 0)%Z with false. cbv iota.
  rewrite Z.min_l by (unfold len; lia). rewrite Z.min_l by (unfold len; lia).
  change (Z.to_nat 0) with 0%nat.
  replace (Z.to_nat (0 + len pre + 7 - 0)) with (String.length pre + 7)%nat
    by (unfold len; lia).
  rewrite substring_app_head. simpl String.substring.
  by rewrite !append_assoc.
Qed.

Example backup_path_ex :
  with_suffix (memory_path "demo_user") ".json.backup"
  = "agent_memory/demo_user_memory.json.backup".
Proof. reflexivity. Qed.

(** ** [load_memory] *)

Example load_corrupt_ex :
  load_memory load_stub clock "ann" (memory_path "ann")
              (World {[ "agent_memory/ann_memory.json" := "{oops" ]} 0)
  = (fresh_memory "ann" "2025-10-01T09:00:00",
     World {[ "agent_memory/ann_memory.json.backup" := "{oops" ]} 1).
Proof. vm_compute. reflexivity. Qed.

(** C6.  [load_memory] on the memory file of a user: a file that is there
    and parses is returned as parsed, nothing else changing; a file that
    is there and does not parse is renamed to its own path followed by
    [.backup] (that is, the path with the suffix [.json.backup]) and the
    fresh dictionary is returned; without a file the fresh dictionary is
    returned and the files are as they were. *)
Theorem load_memory_cases
    (json_load : string -> option json) (isoformat_now : nat -> string)
    (uid : string) (w : world) :
  let file := memory_path uid in
  let fresh := fresh_memory uid (isoformat_now (ticks w)) in
  let '(data, w') := load_memory json_load isoformat_now uid file w in
  getitem fresh "preferences" = Some (JDict [])
  /\ getitem fresh "facts" = Some (JDict [])
  /\ getitem fresh "conversation_history" = Some (JList [])
  /\ getitem fresh "last_interaction" = Some JNull
  /\ match fs w !! file with
     | Some text =>
         match json_load text with
         | Some parsed => data = parsed /\ w' = w
         | None =>
             data = fresh
             /\ fs w' = <[(MEMORY_DIR ++ "/" ++ uid ++ "_memory.json.backup") := text]>
                          (delete file (fs w))
             /\ fs w' !! file = None
         end
     | None => data = fresh /\ fs w' = fs w
     end.
Proof.
  cbv zeta. unfold load_memory.
  destruct (fs w !! memory_path uid) as [text|] eqn:Hf.
  - destruct (json_load text) as [parsed|].
    + do 4 (split; [reflexivity|]). split; reflexivity.
    + do 4 (split; [reflexivity|]). cbn [fs ticks].
      rewrite with_suffix_memory_path. unfold rename. rewrite Hf.
      assert (Hb : memory_path uid ++ ".backup"
                   = MEMORY_DIR ++ "/" ++ uid ++ "_memory.json.backup").
      { unfold memory_path. by rewrite !append_assoc. }
      rewrite Hb. split; [reflexivity|]. split; [reflexivity|].
      rewrite lookup_insert_ne; [apply lookup_delete_eq|].
      rewrite <- Hb. intros H.
      apply (f_equal String.length) in H. rewrite length_append in H.
      simpl in H. lia.
  - do 4 (split; [reflexivity|]). split; reflexivity.
Qed.

(** ** [add_conversation] *)

Lemma list_from_last_n {A} (l : list A) (n : nat) :
  list_from l (- Z.of_nat (S n)) = last_n (S n) l.
Proof.
  unfold list_from, last_n, clamp.
  assert ((- Z.of_nat (S n) <? 0)%Z = true) as -> by (apply Z.ltb_lt; lia).
  f_equal. lia.
Qed.

Lemma last_n_length {A} (n : nat) (l : list A) : length (last_n n l) <= n.
Proof. unfold last_n. rewrite length_drop. lia. Qed.

Lemma last_n_app {A} (n : nat) (l r : list A) :
  last_n n (last_n n l ++ r) = last_n n (l ++ r).
Proof.
  unfold last_n. rewrite !length_app, length_drop, !drop_app, drop_drop, length_drop.
  f_equal; f_equal; lia.
Qed.

Lemma last_n_short {A} (n : nat) (l : list A) : length l <= n -> last_n n l = l.
Proof. intros H. unfold last_n. by replace (length l - n) with 0 by lia. Qed.

Lemma trim_last_n {A} (l : list A) :
  (if (50 <? length l)%nat then list_from l (-50)%Z else l) = last_n 50 l.
Proof.
  destruct (50 <? length l)%nat eqn:E.
  - apply (list_from_last_n l 49).
  - apply Nat.ltb_ge in E. symmetry. by apply last_n_short.
Qed.

Lemma entries_from_length (isoformat_now : nat -> string) (calls : list (string * string)) :
  forall t, length (entries_from isoformat_now t calls) = length calls.
Proof. induction calls as [|[r m] calls IH]; intros t; simpl; auto. Qed.

Section Saving.
Variable json_dump : json -> string.
Variable isoformat_now : nat -> string.
Variable open_w : string -> world -> bool.

(** Saving a manager whose memory is a dictionary: [last_interaction]
    is set in any case, the file written when it can be opened. *)
Lemma save_memory_dict uid file d (w : world) :
  save_memory json_dump isoformat_now open_w (Manager uid file (JDict d)) w
  = let data := JDict (dict_set "last_interaction" (JStr (isoformat_now (ticks w))) d) in
    let w1 := World (fs w) (S (ticks w)) in
    if open_w file w1
    then (Returned tt, Manager uid file data,
          World (<[file := json_dump data]> (fs w)) (S (ticks w)))
    else (Raised OSError, Manager uid file data, w1).
Proof. reflexivity. Qed.

(** One call on a manager whose history is a list: the entry is appended
    and the last fifty kept, whether the save then returns or raises. *)
Lemma add_conversation_step
    (role message : string) (self : MemoryManager) (w : world) (h0 : list json) :
  conversation_history self = Some h0 ->
  let '(r, self', w') :=
    add_conversation json_dump isoformat_now open_w role message self w in
  conversation_history self'
  = Some (last_n 50 (h0 ++ [entry role message (isoformat_now (ticks w))]))
  /\ ticks w' = S (S (ticks w))
  /\ (r = Returned tt \/ r = Raised OSError)
  /\ (open_w (memory_file self) (World (fs w) (S (S (ticks w)))) = true -> r = Returned tt).
Proof.
  unfold conversation_history, add_conversation. intros H.
  destruct (memory self) as [| | | | |d] eqn:Hm; try discriminate H.
  cbn [getitem] in *.
  destruct (dict_get "conversation_history" d) as [[| | | |h|]|]; try discriminate H.
  injection H as ->. rewrite trim_last_n. cbn [setitem].
  rewrite save_memory_dict. cbv zeta. cbn [fs ticks].
  destruct (open_w (memory_file self) _); cbn [memory getitem ticks];
    rewrite dict_get_set_ne by discriminate; rewrite dict_get_set_eq;
    (split; [reflexivity|]); (split; [reflexivity|]); split; auto; discriminate.
Qed.

End Saving.

(** C2, as the claim has it, fails: not every [MemoryManager] has a
    history.  The constructor takes whatever the user's memory file
    holds; from a file holding an empty object it makes a manager
    without [conversation_history], on which [add_conversation] raises
    [KeyError] and leaves everything as it was. *)
Lemma add_conversation_without_history :
  let w := World {[ memory_path "ann" := "{}" ]} 0 in
  let '(self, w1) := init load_stub clock "ann" w in
  memory self = JDict []
  /\ conversation_history self = None
  /\ add_conversation dump_stub clock writable "user" "hello" self w1
     = (Raised KeyError, self, w1).
Proof. vm_compute. repeat split. Qed.

(** C2, amended.  Starting from a manager whose history is the list [h0]
    (what earlier calls left there; empty for a manager made without a
    memory file), every non-empty sequence of [add_conversation] calls
    leaves a history of at most fifty entries: the last fifty of [h0]
    followed by the added entries, in the order of the calls, the newest
    last.  For a manager that starts without history these are the last
    fifty added entries, and all of them while no more than fifty have
    been added.  This holds whether the calls return or raise: a call
    ends in one of two ways, it returns or the opening of the memory file
    raises, after the history has been updated; and every call returns
    when the file can always be opened. *)
Theorem add_conversation_keeps_last_50
    (json_dump : json -> string) (isoformat_now : nat -> string)
    (open_w : string -> world -> bool)
    (calls : list (string * string)) (self : MemoryManager) (w : world)
    (h0 : list json) :
  conversation_history self = Some h0 ->
  calls <> [] ->
  let '(rs, self', w') :=
    add_conversations json_dump isoformat_now open_w calls self w in
  exists history,
    conversation_history self' = Some history
    /\ length history <= 50
    /\ history = last_n 50 (h0 ++ entries_from isoformat_now (ticks w) calls)
    /\ (h0 = [] -> length calls <= 50 ->
        history = entries_from isoformat_now (ticks w) calls)
    /\ length rs = length calls
    /\ Forall (fun r => r = Returned tt \/ r = Raised OSError) rs
    /\ ((forall path v, open_w path v = true) -> Forall (fun r => r = Returned tt) rs).
Proof.
  intros Hh Hne.
  enough (
      let '(rs, self', w') :=
        add_conversations json_dump isoformat_now open_w calls self w in
      conversation_history self'
      = Some (last_n 50 (h0 ++ entries_from isoformat_now (ticks w) calls))
      /\ length rs = length calls
      /\ Forall (fun r => r = Returned tt \/ r = Raised OSError) rs
      /\ ((forall path v, open_w path v = true) -> Forall (fun r => r = Returned tt) rs)) as HH.
  { destruct (add_conversations _ _ _ calls self w) as [[rs self'] w'].
    destruct HH as (Hhist & Hlen & Hrs & Hall).
    exists (last_n 50 (h0 ++ entries_from isoformat_now (ticks w) calls)).
    repeat split; auto using last_n_length.
    intros -> Hc. cbn [List.app]. apply last_n_short. by rewrite entries_from_length. }
  revert self w h0 Hh Hne.
  induction calls as [|[role message] calls IH]; intros self w h0 Hh Hne; [done|].
  cbn [add_conversations entries_from].
  pose proof (add_conversation_step json_dump isoformat_now open_w
                role message self w h0 Hh) as Hstep.
  destruct (add_conversation json_dump isoformat_now open_w role message self w)
    as [[r self1] w1].
  destruct Hstep as (Hh1 & Ht1 & Hr & Hok).
  destruct calls as [|c calls].
  - cbn [add_conversations entries_from length]. split; [exact Hh1|].
    split; [reflexivity|]. split; [by constructor|].
    intros Hall. constructor; [apply Hok, Hall|constructor].
  - remember (c :: calls) as cs eqn:Hcs.
    assert (Hne1 : cs <> []) by (subst cs; discriminate).
    specialize (IH self1 w1 _ Hh1 Hne1).
    destruct (add_conversations json_dump isoformat_now open_w cs self1 w1)
      as [[rs self'] w'].
    destruct IH as (Hhist & Hlen & Hrs & Hall).
    split.
    { rewrite Hhist, Ht1, last_n_app. f_equal. f_equal. by rewrite <- app_assoc. }
    split; [cbn [length]; by rewrite Hlen|].
    split; [by constructor|].
    intros Ha. constructor; [apply Hok, Ha|by apply Hall].
Qed.

(** A manager made without a memory file, and two calls. *)
Lemma add_conversation_keeps_last_50_witness :
  let '(rs, self', w') :=
    add_conversations dump_stub clock writable [("user", "hello"); ("assistant", "hi there")]
      (Manager "ann" (memory_path "ann") (fresh_memory "ann" (clock 0)))
      (World ∅ 1) in
  exists history,
    conversation_history self' = Some history
    /\ length history <= 50
    /\ history = last_n 50 ([] ++ entries_from clock 1
                                   [("user", "hello"); ("assistant", "hi there")])
    /\ (@nil json = [] -> length [("user", "hello"); ("assistant", "hi there")] <= 50 ->
        history = entries_from clock 1 [("user", "hello"); ("assistant", "hi there")])
    /\ length rs = length [("user", "hello"); ("assistant", "hi there")]
    /\ Forall (fun r => r = Returned tt \/ r = Raised OSError) rs
    /\ ((forall path v, writable path v = true) -> Forall (fun r => r = Returned tt) rs).
Proof.
  apply (add_conversation_keeps_last_50 dump_stub clock writable
           [("user", "hello"); ("assistant", "hi there")]
           (Manager "ann" (memory_path "ann") (fresh_memory "ann" (clock 0)))
           (World ∅ 1) []).
  - reflexivity.
  - discriminate.
Defined.

End MemoryFacts.

Module RagFacts.
Import PyStr PyData Rag.

(** ** [chunk_text] *)

Example chunk_text_short_ex :
  chunk_text digest_stub 10 "One. Two." 500 50
  = Some [Chunk "d41d8cd9" "One. Two." 0 500 9].
Proof. reflexivity. Qed.

Example chunk_text_two_ex :
  option_map (map (fun c => (chunk_body c, chunk_start c, chunk_end c)))
             (chunk_text digest_stub 10 "aaaaaaaa. bbbb" 10 2)
  = Some [("aaaaaaaa.", 0%Z, 9%Z); ("a. bbbb", 7%Z, 17%Z)].
Proof. reflexivity. Qed.

Lemma stuck_text_len : len stuck_text = 550%Z.
Proof. reflexivity. Qed.

(** One pass over [stuck_text] from position [0] cuts the chunk at the
    boundary (end [50]) and steps back by the overlap, to [0] again. *)
Lemma chunk_step_stuck (md5_hex8 : string -> string) (chunks : list chunk) :
  chunk_step md5_hex8 stuck_text 500 50 (0%Z, chunks)
  = (0%Z, (chunks ++ [Chunk (md5_hex8 (repeat_char "a" 49 ++ ".")%string)
                            (repeat_char "a" 49 ++ ".")%string 0 50 50])%list).
Proof. vm_compute. reflexivity. Qed.

(** C3 fails on the code: on [stuck_text], with the default
    [chunk_size=500] and [overlap=50], the loop of [chunk_text] is still
    running after any number of passes; it never returns. *)
Theorem chunk_text_never_returns (md5_hex8 : string -> string) (fuel : nat) :
  chunk_text md5_hex8 fuel stuck_text 500 50 = None.
Proof.
  unfold chunk_text. generalize (@nil chunk) as chunks.
  induction fuel as [|fuel IH]; intros chunks.
  - reflexivity.
  - cbn [chunk_loop fst]. rewrite stuck_text_len.
    change (0 <? 550)%Z with true. cbv iota.
    rewrite chunk_step_stuck. apply IH.
Qed.

(** ** Words *)

Lemma all_chars_app P (s1 s2 : string) :
  all_chars P (s1 ++ s2) = all_chars P s1 && all_chars P s2.
Proof.
  induction s1 as [|c s1 IH]; [reflexivity|].
  change (String c s1 ++ s2) with (String c (s1 ++ s2)).
  cbn [all_chars]. rewrite IH. by rewrite andb_assoc.
Qed.

Lemma append_nil_r (s : string) : s ++ EmptyString = s.
Proof.
  induction s as [|c s IH]; [reflexivity|].
  change (String c s ++ EmptyString) with (String c (s ++ EmptyString)).
  by rewrite IH.
Qed.

Lemma append_snoc (w : string) (c : ascii) (s : string) :
  (w ++ String c EmptyString) ++ s = w ++ String c s.
Proof.
  induction w as [|d w IH]; [reflexivity|].
  change (String d ((w ++ String c EmptyString) ++ s) = String d (w ++ String c s)).
  by rewrite IH.
Qed.

(** Every word [split] gives is made of characters of the text. *)
Lemma split_go_all_chars P (s : string) :
  forall w q, all_chars P s = true -> all_chars P w = true ->
    q ∈ split_go w s -> all_chars P q = true.
Proof.
  induction s as [|c s IH]; intros w q Hs Hw Hq; cbn [split_go] in Hq.
  - destruct w; [by apply elem_of_nil in Hq|].
    apply list_elem_of_singleton in Hq. by subst.
  - cbn [all_chars] in Hs. apply andb_prop in Hs as [Hc Hs].
    destruct (isspace c).
    + destruct w as [|d w].
      * by apply (IH EmptyString).
      * apply elem_of_cons in Hq as [->|Hq]; [done|]. by apply (IH EmptyString).
    + apply (IH (w ++ String c EmptyString)); [done| |done].
      rewrite all_chars_app, Hw. cbn. by rewrite Hc.
Qed.

(** A word is not empty and has no white space in it. *)
Lemma split_go_word (s : string) :
  forall w q, all_chars nonspace w = true -> q ∈ split_go w s ->
    q <> EmptyString /\ all_chars nonspace q = true.
Proof.
  induction s as [|c s IH]; intros w q Hw Hq; cbn [split_go] in Hq.
  - destruct w; [by apply elem_of_nil in Hq|].
    apply list_elem_of_singleton in Hq. by subst.
  - destruct (isspace c) eqn:Hc.
    + destruct w as [|d w].
      * by apply (IH EmptyString).
      * apply elem_of_cons in Hq as [->|Hq]; [done|]. by apply (IH EmptyString).
    + apply (IH (w ++ String c EmptyString)); [|done].
      rewrite all_chars_app, Hw. cbn. unfold nonspace. by rewrite Hc.
Qed.

(** Splitting text without white space gives the text itself. *)
Lemma split_go_nonspace (q : string) :
  forall w, all_chars nonspace q = true ->
    split_go w q = match w ++ q with EmptyString => [] | s => [s] end.
Proof.
  induction q as [|c q IH]; intros w Hq; cbn [split_go].
  - rewrite append_nil_r. by destruct w.
  - cbn [all_chars] in Hq. apply andb_prop in Hq as [Hc Hq].
    unfold nonspace in Hc. apply negb_true_iff in Hc. rewrite Hc.
    rewrite (IH _ Hq). by rewrite append_snoc.
Qed.

Lemma lower_char_idem (c : ascii) : lower_char (lower_char c) = lower_char c.
Proof.
  destruct c as [[] [] [] [] [] [] [] []]; reflexivity.
Qed.

Lemma lower_all_fixed (s : string) : all_chars lower_fixed (lower s) = true.
Proof.
  induction s as [|c s IH]; [reflexivity|].
  cbn [lower map_chars all_chars]. fold (lower s). rewrite IH.
  unfold lower_fixed. rewrite lower_char_idem. by rewrite Ascii.eqb_refl.
Qed.

Lemma lower_of_fixed (s : string) : all_chars lower_fixed s = true -> lower s = s.
Proof.
  induction s as [|c s IH]; [reflexivity|]. cbn [all_chars].
  intros H. apply andb_prop in H as [Hc Hs].
  cbn [lower map_chars]. fold (lower s). rewrite (IH Hs).
  unfold lower_fixed in Hc. apply Ascii.eqb_eq in Hc. by rewrite Hc.
Qed.

(** A word of [text.lower().split()] used as a query is its own single
    query word. *)
Lemma query_of_word (text q : string) :
  q ∈ split (lower text) -> split (lower q) = [q].
Proof.
  intros Hq.
  assert (Hl : all_chars lower_fixed q = true).
  { eapply (split_go_all_chars lower_fixed); [apply lower_all_fixed| |exact Hq]. done. }
  destruct (split_go_word (lower text) EmptyString q eq_refl Hq) as [Hne Hns].
  rewrite (lower_of_fixed _ Hl). unfold split.
  rewrite (split_go_nonspace _ _ Hns).
  change (EmptyString ++ q) with q. by destruct q.
Qed.

(** ** The keyword index *)

Lemma score_word_postings idx scores w :
  score_word idx scores w = foldl bump scores (postings idx w).
Proof. unfold score_word, postings. by destruct (idx !! w). Qed.

Lemma index_word_postings id (idx : gmap string (list string)) word w :
  postings (index_word id idx word) w
  = (postings idx w ++ if bool_decide (w = word) then [id] else [])%list.
Proof.
  unfold index_word, postings. case_bool_decide as Hw.
  - subst w. destruct (idx !! word) eqn:E; by rewrite lookup_insert_eq.
  - destruct (idx !! word) eqn:E; rewrite lookup_insert_ne by done;
      by rewrite app_nil_r.
Qed.

Lemma foldl_index_word id (ws : list string) :
  NoDup ws -> forall (idx : gmap string (list string)) w,
    postings (foldl (index_word id) idx ws) w
    = (postings idx w ++ if bool_decide (w ∈ ws) then [id] else [])%list.
Proof.
  induction 1 as [|word ws Hnotin Hnd IH]; intros idx w; cbn [foldl].
  - rewrite bool_decide_eq_false_2 by apply not_elem_of_nil. by rewrite app_nil_r.
  - rewrite IH, index_word_postings.
    destruct (bool_decide_reflect (w = word)) as [->|Hne].
    + rewrite (bool_decide_eq_false_2 _ Hnotin).
      rewrite bool_decide_eq_true_2 by apply list_elem_of_here.
      by rewrite app_nil_r.
    + rewrite app_nil_r. f_equal.
      rewrite (bool_decide_ext (w ∈ word :: ws) (w ∈ ws)); [done|].
      rewrite elem_of_cons. split; [intros [?|?]; done|intros; by right].
Qed.

Lemma add_document_postings id text md at' (s : store) w :
  postings (index (add_document id text md at' s)) w
  = (postings (index s) w
     ++ if bool_decide (w ∈ split (lower text)) then [id] else [])%list.
Proof.
  unfold add_document. cbn [index].
  rewrite foldl_index_word by apply NoDup_remove_dups.
  f_equal. by rewrite (bool_decide_ext _ _ (elem_of_remove_dups _ w)).
Qed.

Lemma add_all_spec (docs : list document) :
  forall s : store,
    documents (add_all docs s) = (documents s ++ docs)%list
    /\ forall w, postings (index (add_all docs s)) w
         = (postings (index s) w ++ map doc_id (List.filter (has_word w) docs))%list.
Proof.
  unfold add_all.
  induction docs as [|d docs IH]; intros s; cbn [foldl].
  - split; [by rewrite app_nil_r|]. intros w. by rewrite app_nil_r.
  - destruct (IH (add_document (doc_id d) (doc_text d) (Some (doc_metadata d))
                               (doc_added_at d) s)) as [Hd Hi].
    split.
    + rewrite Hd. cbn [add_document documents default]. destruct d.
      by rewrite <- app_assoc.
    + intros w. rewrite Hi, add_document_postings, <- app_assoc. f_equal.
      cbn [List.filter]. unfold has_word at 2.
      by destruct (bool_decide (w ∈ split (lower (doc_text d)))).
Qed.

(** ** Add, then search *)

Example search_ex :
  let d1 := Document "a" "The quick brown Fox" [] "t1" in
  let d2 := Document "b" "a lazy fox and a quick fox" [] "t2" in
  search "QUICK fox  fox" 3 (add_all [d1; d2] empty_store) = [(d1, 3); (d2, 3)]
  /\ search "lazy dog" 3 (add_all [d1; d2] empty_store) = [(d2, 1)].
Proof. split; vm_compute; reflexivity. Qed.

(** C9.  After one [add_document(doc_id, text)] on an empty store, a query
    that is one of the words of [text.lower().split()] finds the document:
    for [top_k >= 1] the result list holds it with a relevance score of at
    least one (it is the only result, with score one). *)
Theorem add_then_search
    (id text : string) (metadata : option (list (string * json)))
    (added_at q : string) (top_k : Z) :
  q ∈ split (lower text) ->
  (1 <= top_k)%Z ->
  let doc := Document id text (default [] metadata) added_at in
  let results := search q top_k (add_document id text metadata added_at empty_store) in
  (exists score, (doc, score) ∈ results /\ 1 <= score)
  /\ results = [(doc, 1)].
Proof.
  intros Hq Hk doc results.
  assert (Hr : results = [(doc, 1)]).
  { subst results. unfold search.
    rewrite (query_of_word text q Hq). cbn [foldl].
    rewrite score_word_postings, add_document_postings.
    rewrite bool_decide_eq_true_2 by exact Hq.
    unfold postings at 1. cbn [empty_store index]. rewrite lookup_empty. cbn.
    unfold list_upto, clamp. cbn [length].
    assert ((top_k <? 0)%Z = false) as -> by (apply Z.ltb_ge; lia).
    rewrite Z.min_r by lia. rewrite Nat2Z.id.
    cbn. unfold find_doc. cbn. by rewrite String.eqb_refl. }
  split; [|exact Hr].
  exists 1. rewrite Hr. split; [apply list_elem_of_here|lia].
Qed.

Lemma add_then_search_witness :
  let doc := Document "doc1" "Hello  World" (default [] None) "t" in
  let results := search "world" 3 (add_document "doc1" "Hello  World" None "t" empty_store) in
  (exists score, (doc, score) ∈ results /\ 1 <= score)
  /\ results = [(doc, 1)].
Proof.
  apply (add_then_search "doc1" "Hello  World" None "t" "world" 3).
  - vm_compute. apply list_elem_of_further, list_elem_of_here.
  - lia.
Defined.

End RagFacts.

Module SearchFacts.
Import PyStr PyData PyDataFacts Rag RagFacts.

(** ** Scores *)

Lemma dict_get_elem {V} (k : string) (v : V) (d : list (string * V)) :
  dict_get k d = Some v -> (k, v) ∈ d.
Proof.
  induction d as [|[k' v'] d IH]; simpl; [discriminate|].
  destruct (String.eqb_spec k k') as [->|Hk].
  - intros [= ->]. apply list_elem_of_here.
  - intros H. apply list_elem_of_further. by apply IH.
Qed.

Lemma dict_get_none {V} (k : string) (d : list (string * V)) :
  dict_get k d = None -> k ∉ map fst d.
Proof.
  induction d as [|[k' v'] d IH]; simpl; [intros _; apply not_elem_of_nil|].
  destruct (String.eqb_spec k k') as [->|Hk]; [discriminate|].
  intros H. apply not_elem_of_cons. split; [done|]. by apply IH.
Qed.

Lemma elem_dict_get {V} (k : string) (v : V) (d : list (string * V)) :
  NoDup (map fst d) -> (k, v) ∈ d -> dict_get k d = Some v.
Proof.
  induction d as [|[k' v'] d IH]; simpl; intros Hnd Hin.
  - by apply elem_of_nil in Hin.
  - apply NoDup_cons in Hnd as [Hk' Hnd].
    apply elem_of_cons in Hin as [[= -> ->]|Hin].
    + by rewrite String.eqb_refl.
    + destruct (String.eqb_spec k k') as [->|Hk]; [|by apply IH].
      exfalso. apply Hk'.
      change k' with (fst (k', v)). apply list_elem_of_In, in_map, list_elem_of_In, Hin.
Qed.

Lemma dict_set_keys {V} (k : string) (v : V) (d : list (string * V)) :
  map fst (dict_set k v d)
  = match dict_get k d with
    | Some _ => map fst d
    | None => (map fst d ++ [k])%list
    end.
Proof.
  induction d as [|[k' v'] d IH]; simpl; [reflexivity|].
  destruct (String.eqb k k'); simpl; [reflexivity|].
  rewrite IH. by destruct (dict_get k d).
Qed.

Lemma dict_set_nodup {V} (k : string) (v : V) (d : list (string * V)) :
  NoDup (map fst d) -> NoDup (map fst (dict_set k v d)).
Proof.
  intros Hnd. rewrite dict_set_keys.
  destruct (dict_get k d) eqn:E; [done|].
  apply NoDup_app. split; [done|]. split; [|apply NoDup_singleton].
  intros x Hx Hk. apply list_elem_of_singleton in Hk as ->.
  by apply (dict_get_none _ _ E).
Qed.

Lemma default_entry_of (n : nat) : default 0 (entry_of n) = n.
Proof. by destruct n. Qed.

Lemma bump_holds scores f id :
  holds scores f ->
  holds (bump scores id) (fun x => f x + if String.eqb x id then 1 else 0).
Proof.
  intros [Hnd Hf]. split; [by apply dict_set_nodup|].
  intros x. unfold bump. destruct (String.eqb_spec x id) as [->|Hne].
  - rewrite dict_get_set_eq, Hf, default_entry_of.
    by rewrite Nat.add_1_r.
  - rewrite dict_get_set_ne by done. by rewrite Hf, Nat.add_0_r.
Qed.

Lemma foldl_bump_holds ids :
  forall scores f, holds scores f ->
    holds (foldl bump scores ids) (fun x => f x + count_id x ids).
Proof.
  induction ids as [|id ids IH]; intros scores f H; cbn [foldl].
  - destruct H as [Hnd Hf]. split; [done|]. intros x.
    by rewrite Hf, Nat.add_0_r.
  - apply (bump_holds _ _ id) in H. apply IH in H.
    destruct H as [Hnd Hf]. split; [done|]. intros x. rewrite Hf. f_equal.
    unfold count_id. cbn [List.filter]. rewrite (String.eqb_sym x id).
    destruct (String.eqb id x); cbn [length]; lia.
Qed.

Lemma foldl_score_word_holds idx query_words :
  forall scores f, holds scores f ->
    holds (foldl (score_word idx) scores query_words)
          (fun x => f x + hits idx query_words x).
Proof.
  induction query_words as [|w ws IH]; intros scores f H; cbn [foldl].
  - destruct H as [Hnd Hf]. split; [done|]. intros x.
    unfold hits. cbn. by rewrite Hf, Nat.add_0_r.
  - rewrite score_word_postings.
    apply (foldl_bump_holds (postings idx w)) in H. apply IH in H.
    destruct H as [Hnd Hf]. split; [done|]. intros x. rewrite Hf. f_equal.
    unfold hits. cbn. lia.
Qed.

(** ** Counting through the index *)

Lemma count_id_absent (P : document -> bool) id (docs : list document) :
  id ∉ map doc_id docs -> count_id id (map doc_id (List.filter P docs)) = 0.
Proof.
  unfold count_id. induction docs as [|d docs IH]; [reflexivity|].
  cbn [map]. intros H. apply not_elem_of_cons in H as [Hd H].
  cbn [List.filter]. destruct (P d); [|by apply IH].
  cbn [map List.filter]. destruct (String.eqb_spec id (doc_id d)); [done|by apply IH].
Qed.

Lemma count_id_present (P : document -> bool) (docs : list document) d :
  NoDup (map doc_id docs) -> d ∈ docs ->
  count_id (doc_id d) (map doc_id (List.filter P docs)) = if P d then 1 else 0.
Proof.
  induction docs as [|d0 docs IH]; intros Hnd Hin.
  - by apply elem_of_nil in Hin.
  - cbn [map] in Hnd. apply NoDup_cons in Hnd as [Hd0 Hnd].
    apply elem_of_cons in Hin as [->|Hin].
    + cbn [List.filter]. destruct (P d0).
      * unfold count_id. cbn [map List.filter]. rewrite String.eqb_refl. cbn [length].
        f_equal. by apply (count_id_absent P).
      * by apply (count_id_absent P).
    + assert (Hne : doc_id d <> doc_id d0).
      { intros E. apply Hd0. rewrite <- E.
        apply list_elem_of_In, in_map, list_elem_of_In, Hin. }
      cbn [List.filter]. destruct (P d0); [|by apply IH].
      unfold count_id. cbn [map List.filter].
      destruct (String.eqb_spec (doc_id d) (doc_id d0)); [done|]. by apply IH.
Qed.

Lemma sum_indicator {A} (P : A -> bool) (l : list A) :
  sum_list (map (fun x => if P x then 1 else 0) l) = length (List.filter P l).
Proof.
  induction l as [|x l IH]; [reflexivity|]. cbn. destruct (P x); cbn; lia.
Qed.

Section Indexed.
Variable docs : list document.
Variable query : string.
Hypothesis distinct_ids : NoDup (map doc_id docs).

Let self : store := add_all docs empty_store.

Lemma self_documents : documents self = docs.
Proof. subst self. by destruct (add_all_spec docs empty_store) as [-> _]. Qed.

Lemma self_postings w :
  postings (index self) w = map doc_id (List.filter (has_word w) docs).
Proof.
  subst self. destruct (add_all_spec docs empty_store) as [_ ->].
  unfold postings at 1. cbn [empty_store index]. by rewrite lookup_empty.
Qed.

Lemma hits_present d :
  d ∈ docs -> hits (index self) (split (lower query)) (doc_id d) = score query d.
Proof.
  intros Hd. unfold hits, score. rewrite <- sum_indicator. f_equal.
  apply map_ext. intros w. rewrite self_postings.
  by apply count_id_present.
Qed.

Lemma hits_absent id :
  id ∉ map doc_id docs -> hits (index self) (split (lower query)) id = 0.
Proof.
  intros Hid. unfold hits.
  induction (split (lower query)) as [|w ws IH]; [reflexivity|].
  cbn. rewrite IH, self_postings. by rewrite count_id_absent.
Qed.

Lemma scores_of_holds :
  holds (scores_of docs query) (hits (index self) (split (lower query))).
Proof.
  unfold scores_of. fold self.
  destruct (foldl_score_word_holds (index self) (split (lower query)) [] (fun _ => 0))
    as [Hnd Hf].
  { split; [apply NoDup_nil_2|done]. }
  split; [done|]. intros id. by rewrite Hf.
Qed.

Lemma find_doc_present d : d ∈ docs -> find_doc docs (doc_id d) = Some d.
Proof.
  unfold find_doc. revert distinct_ids.
  induction docs as [|d0 ds IH]; intros Hnd Hin.
  - by apply elem_of_nil in Hin.
  - cbn [map] in Hnd. apply NoDup_cons in Hnd as [Hd0 Hnd]. cbn [List.find].
    apply elem_of_cons in Hin as [->|Hin]; [by rewrite String.eqb_refl|].
    destruct (String.eqb_spec (doc_id d0) (doc_id d)) as [E|_]; [|by apply IH].
    exfalso. apply Hd0. rewrite E.
    apply list_elem_of_In, in_map, list_elem_of_In, Hin.
Qed.

(** An entry of [scores] belongs to a document of the store and carries
    its score. *)
Lemma scores_of_entry id n :
  (id, n) ∈ scores_of docs query ->
  exists d, d ∈ docs /\ doc_id d = id /\ n = score query d /\ 1 <= n
            /\ find_doc docs id = Some d.
Proof.
  intros Hin. destruct scores_of_holds as [Hnd Hf].
  apply (elem_dict_get _ _ _ Hnd) in Hin. rewrite Hf in Hin.
  destruct (decide (id ∈ map doc_id docs)) as [Hid|Hid].
  - apply list_elem_of_In, in_map_iff in Hid as (d & <- & Hd).
    apply list_elem_of_In in Hd.
    rewrite (hits_present d Hd) in Hin. exists d.
    destruct (score query d) eqn:E; [discriminate|]. injection Hin as <-.
    repeat split; auto; try lia. by apply find_doc_present.
  - rewrite (hits_absent _ Hid) in Hin. discriminate.
Qed.

(** Every document with a positive score has its entry. *)
Lemma scores_of_complete d :
  d ∈ docs -> 1 <= score query d -> (doc_id d, score query d) ∈ scores_of docs query.
Proof.
  intros Hd Hs. destruct scores_of_holds as [Hnd Hf].
  apply dict_get_elem. rewrite Hf, (hits_present d Hd).
  destruct (score query d); [lia|reflexivity].
Qed.

End Indexed.

(** ** Sorting by decreasing score *)

Lemma insert_desc_perm x l : insert_desc x l ≡ₚ x :: l.
Proof.
  induction l as [|y l IH]; cbn [insert_desc]; [done|].
  destruct (snd x <? snd y)%nat; [|done].
  rewrite IH. apply perm_swap.
Qed.

Lemma sorted_desc_perm l : sorted_desc l ≡ₚ l.
Proof.
  unfold sorted_desc. induction l as [|x l IH]; cbn [foldr]; [done|].
  by rewrite insert_desc_perm, IH.
Qed.

Lemma insert_desc_sorted x l :
  StronglySorted before l -> StronglySorted before (insert_desc x l).
Proof.
  induction 1 as [|y l Hs IH Hy]; cbn [insert_desc].
  - repeat constructor.
  - destruct (Nat.ltb_spec (snd x) (snd y)) as [Hlt|Hge].
    + constructor; [exact IH|].
      rewrite insert_desc_perm. constructor; [unfold before; lia|exact Hy].
    + constructor; [by constructor|].
      constructor; [exact Hge|].
      eapply Forall_impl; [exact Hy|]. unfold before. intros z Hz. simpl in *. lia.
Qed.

Lemma sorted_desc_sorted l : StronglySorted before (sorted_desc l).
Proof.
  unfold sorted_desc. induction l as [|x l IH]; cbn [foldr].
  - constructor.
  - by apply insert_desc_sorted.
Qed.

Lemma sorted_app_before {A} (l1 l2 : list (A * nat)) :
  StronglySorted before (l1 ++ l2) ->
  forall x y, x ∈ l1 -> y ∈ l2 -> before x y.
Proof.
  induction l1 as [|a l1 IH]; intros Hs x y Hx Hy.
  - by apply elem_of_nil in Hx.
  - cbn in Hs. apply StronglySorted_inv in Hs as [Hs Ha].
    apply elem_of_cons in Hx as [->|Hx]; [|by apply IH].
    rewrite Forall_forall in Ha. apply Ha. apply elem_of_app. by right.
Qed.

(** ** The result list *)

Lemma results_forall2 (docs : list document) (l : list (string * nat)) :
  (forall x, x ∈ l -> is_Some (find_doc docs (fst x))) ->
  Forall2 (result_of docs) l
    (flat_map (fun '(id, score) =>
                 match find_doc docs id with
                 | Some doc => [(doc, score)]
                 | None => []
                 end) l).
Proof.
  induction l as [|[id n] l IH]; intros H; cbn [flat_map]; [constructor|].
  destruct (H (id, n) (list_elem_of_here _ _)) as [d Hd]. cbn [fst] in Hd.
  rewrite Hd. cbn [app]. constructor; [by split|].
  apply IH. intros x Hx. apply H. by apply list_elem_of_further.
Qed.

Lemma forall2_sorted (docs : list document) l rs :
  Forall2 (result_of docs) l rs ->
  StronglySorted before l -> StronglySorted before rs.
Proof.
  induction 1 as [|x r l rs [_ Hr] HF IH]; intros Hs; [constructor|].
  apply StronglySorted_inv in Hs as [Hs Hx]. constructor; [by apply IH|].
  clear IH Hs. induction HF as [|y r' l rs [_ Hr'] HF IH]; [constructor|].
  apply Forall_cons in Hx as [Hxy Hx]. constructor; [|by apply IH].
  unfold before in *. lia.
Qed.

Lemma forall2_ids (docs : list document) l rs :
  Forall2 (result_of docs) l rs -> map doc_id (map fst rs) = map fst l.
Proof.
  induction 1 as [|x r l rs [Hf _] HF IH]; [reflexivity|].
  cbn [map]. rewrite IH. f_equal.
  unfold find_doc in Hf. apply find_some in Hf as [_ Hf].
  by apply String.eqb_eq in Hf.
Qed.

Lemma forall2_elem (docs : list document) l rs r :
  Forall2 (result_of docs) l rs -> r ∈ rs ->
  exists x, x ∈ l /\ result_of docs x r.
Proof.
  induction 1 as [|x r0 l rs Hr HF IH]; intros Hin.
  - by apply elem_of_nil in Hin.
  - apply elem_of_cons in Hin as [->|Hin].
    + exists x. split; [apply list_elem_of_here|done].
    + destruct (IH Hin) as (y & Hy & Hry). exists y.
      split; [by apply list_elem_of_further|done].
Qed.

Lemma forall2_elem_l (docs : list document) l rs x :
  Forall2 (result_of docs) l rs -> x ∈ l ->
  exists r, r ∈ rs /\ result_of docs x r.
Proof.
  induction 1 as [|x0 r l rs Hr HF IH]; intros Hin.
  - by apply elem_of_nil in Hin.
  - apply elem_of_cons in Hin as [->|Hin].
    + exists r. split; [apply list_elem_of_here|done].
    + destruct (IH Hin) as (y & Hy & Hry). exists y.
      split; [by apply list_elem_of_further|done].
Qed.

Lemma list_upto_take {A} (l : list A) (top_k : Z) :
  (0 <= top_k)%Z -> list_upto l top_k = take (Z.to_nat top_k) l.
Proof.
  intros Hk. unfold list_upto, clamp.
  assert ((top_k <? 0)%Z = false) as -> by (apply Z.ltb_ge; lia).
  destruct (Z.le_gt_cases top_k (Z.of_nat (length l))) as [Hle|Hgt].
  - by rewrite Z.min_l.
  - rewrite Z.min_r by lia. rewrite Nat2Z.id.
    rewrite !take_ge; [done|lia|lia].
Qed.

Lemma sorted_app_l {A} (R : A -> A -> Prop) (l1 l2 : list A) :
  StronglySorted R (l1 ++ l2) -> StronglySorted R l1.
Proof.
  induction l1 as [|a l1 IH]; intros Hs; [constructor|].
  cbn in Hs. apply StronglySorted_inv in Hs as [Hs Ha].
  constructor; [by apply IH|]. apply Forall_app in Ha. tauto.
Qed.

Lemma filter_ids_nodup (P : document -> bool) (docs : list document) :
  NoDup (map doc_id docs) -> NoDup (map doc_id (List.filter P docs)).
Proof.
  induction docs as [|d docs IH]; intros Hnd; [done|].
  cbn [map] in Hnd. apply NoDup_cons in Hnd as [Hd Hnd].
  cbn [List.filter]. destruct (P d); [|by apply IH].
  cbn [map]. apply NoDup_cons. split; [|by apply IH].
  intros Hin. apply Hd.
  apply list_elem_of_In, in_map_iff in Hin as (d' & E & Hd').
  apply filter_In in Hd' as [Hd' _]. rewrite <- E.
  apply list_elem_of_In, in_map, Hd'.
Qed.

(** The [scores] dictionary has one entry for every document with a
    positive score. *)
Lemma scores_of_length (docs : list document) (query : string) :
  NoDup (map doc_id docs) ->
  length (scores_of docs query)
  = length (List.filter (fun d => (1 <=? score query d)%nat) docs).
Proof.
  intros Hnd.
  rewrite <- (length_map fst (scores_of docs query)).
  rewrite <- (length_map doc_id (List.filter _ docs)).
  apply Permutation_length, NoDup_Permutation.
  - by destruct (scores_of_holds docs query).
  - by apply filter_ids_nodup.
  - intros id. split; intros Hin.
    + apply list_elem_of_In, in_map_iff in Hin as ([id' n] & <- & Hin).
      apply list_elem_of_In, (scores_of_entry docs query Hnd) in Hin
        as (d & Hd & <- & -> & Hpos & _).
      cbn [fst]. apply list_elem_of_In, in_map, filter_In. split; [by apply list_elem_of_In|].
      by apply Nat.leb_le.
    + apply list_elem_of_In, in_map_iff in Hin as (d & <- & Hin).
      apply filter_In in Hin as [Hd Hpos]. apply Nat.leb_le in Hpos.
      apply list_elem_of_In in Hd.
      apply list_elem_of_In.
      change (doc_id d) with (fst (doc_id d, score query d)).
      apply in_map, list_elem_of_In. by apply scores_of_complete.
Qed.

Example repeated_word_ex :
  let d := Document "a" "foo bar" [] "t" in
  search "foo foo" 3 (add_all [d] empty_store) = [(d, 2)].
Proof. vm_compute. reflexivity. Qed.

(** C4, as the claim has it, fails: a word the query repeats counts each
    time it occurs, so the relevance score can exceed the size of the
    intersection of the two sets of words. *)
Lemma search_counts_repeated_words :
  let d := Document "a" "foo bar" [] "t" in
  NoDup (map doc_id [d])
  /\ search "foo foo" 3 (add_all [d] empty_store) = [(d, 2)]
  /\ token_overlap "foo foo" d = 1
  /\ ~ (forall d' s, (d', s) ∈ search "foo foo" 3 (add_all [d] empty_store) ->
          s = token_overlap "foo foo" d').
Proof.
  intros d. split; [apply NoDup_singleton|].
  split; [vm_compute; reflexivity|]. split; [vm_compute; reflexivity|].
  intros H. specialize (H d 2).
  assert (E : token_overlap "foo foo" d = 1) by (vm_compute; reflexivity).
  rewrite E in H. enough (2 = 1) by lia. apply H.
  assert (search "foo foo" 3 (add_all [d] empty_store) = [(d, 2)]) as ->
    by (vm_compute; reflexivity).
  apply list_elem_of_here.
Qed.

(** C4, amended.  For documents added with pairwise different
    identifiers and [top_k >= 0], every result of [search] is a document
    of the store with, as its relevance score, the number of words of the
    query (repeated words counted as often as they occur) that are words
    of the document, and that score is at least one; the results are in
    order of decreasing score, without repetition; there are [top_k] of
    them, or as many as there are documents with a positive score when
    these are fewer; and no document left out scores higher than one
    returned. *)
Theorem search_top_k (docs : list document) (query : string) (top_k : Z) :
  NoDup (map doc_id docs) ->
  (0 <= top_k)%Z ->
  let results := search query top_k (add_all docs empty_store) in
  (forall d s, (d, s) ∈ results -> d ∈ docs /\ s = score query d /\ 1 <= s)
  /\ StronglySorted (fun x y => snd y <= snd x) results
  /\ NoDup (map fst results)
  /\ length results
     = Nat.min (Z.to_nat top_k)
               (length (List.filter (fun d => (1 <=? score query d)%nat) docs))
  /\ (forall d, d ∈ docs -> 1 <= score query d -> d ∉ map fst results ->
        forall d' s', (d', s') ∈ results -> score query d <= s').
Proof.
  intros Hnd Hk results.
  set (sorted := sorted_desc (scores_of docs query)).
  set (top := take (Z.to_nat top_k) sorted).
  assert (Hres : results
    = flat_map (fun '(id, score) =>
                  match find_doc docs id with
                  | Some doc => [(doc, score)]
                  | None => []
                  end) top).
  { subst results top sorted. unfold search.
    rewrite (list_upto_take _ _ Hk). by rewrite self_documents. }
  assert (Hsplit : sorted = (top ++ drop (Z.to_nat top_k) sorted)%list)
    by (subst top; by rewrite take_drop).
  assert (Hsorted : StronglySorted before sorted) by apply sorted_desc_sorted.
  assert (Hperm : sorted ≡ₚ scores_of docs query) by apply sorted_desc_perm.
  assert (Hentry : forall x, x ∈ sorted ->
            exists d, d ∈ docs /\ doc_id d = fst x /\ snd x = score query d
                      /\ 1 <= snd x /\ find_doc docs (fst x) = Some d).
  { intros [id n] Hx. rewrite Hperm in Hx.
    by apply (scores_of_entry docs query Hnd). }
  assert (Htop : forall x, x ∈ top -> x ∈ sorted).
  { intros x Hx. rewrite Hsplit. apply elem_of_app. by left. }
  assert (HF : Forall2 (result_of docs) top results).
  { rewrite Hres. apply results_forall2. intros x Hx.
    destruct (Hentry x (Htop x Hx)) as (d & _ & _ & _ & _ & Hf). by exists d. }
  split; [|split; [|split; [|split]]].
  - intros d s Hin.
    destruct (forall2_elem _ _ _ _ HF Hin) as (x & Hx & Hf & Hs).
    destruct (Hentry x (Htop x Hx)) as (d' & Hd' & _ & Hsc & Hpos & Hf').
    cbn [fst snd] in Hf, Hs. rewrite Hf in Hf'. injection Hf' as <-.
    rewrite Hs. auto.
  - apply (forall2_sorted docs top); [exact HF|].
    apply (sorted_app_l before top (drop (Z.to_nat top_k) sorted)).
    by rewrite <- Hsplit.
  - apply (NoDup_fmap_1 doc_id).
    change (NoDup (map doc_id (map fst results))).
    rewrite (forall2_ids _ _ _ HF).
    assert (Hk' : NoDup (map fst sorted)).
    { destruct (scores_of_holds docs query) as [Hn _].
      eapply NoDup_Permutation_proper; [|exact Hn].
      by apply Permutation_map. }
    rewrite Hsplit, map_app in Hk'. by apply NoDup_app in Hk' as [? _].
  - rewrite <- (Forall2_length _ _ _ HF). subst top. rewrite length_take.
    rewrite <- (scores_of_length docs query Hnd).
    by rewrite (Permutation_length Hperm).
  - intros d Hd Hpos Hout d' s' Hin.
    pose proof (scores_of_complete docs query Hnd d Hd Hpos) as Hc.
    rewrite <- Hperm, Hsplit in Hc. apply elem_of_app in Hc as [Hc|Hc].
    + exfalso. apply Hout.
      destruct (forall2_elem_l _ _ _ _ HF Hc) as ([d0 s0] & Hr & Hf & _).
      cbn [fst] in Hf. rewrite (find_doc_present docs Hnd d Hd) in Hf.
      injection Hf as <-.
      change d with (fst (d, s0)). apply list_elem_of_In, in_map, list_elem_of_In, Hr.
    + destruct (forall2_elem _ _ _ _ HF Hin) as (x & Hx & _ & Hs).
      cbn [snd] in Hs. rewrite Hs.
      rewrite Hsplit in Hsorted.
      apply (sorted_app_before _ _ Hsorted x (doc_id d, score query d) Hx Hc).
Qed.

Lemma search_top_k_witness :
  let docs := [ Document "a" "The quick brown Fox" [] "t1";
                Document "b" "a lazy fox and a quick fox" [] "t2";
                Document "c" "nothing to see" [] "t3" ] in
  let results := search "QUICK fox  fox" 1 (add_all docs empty_store) in
  (forall d s, (d, s) ∈ results -> d ∈ docs /\ s = score "QUICK fox  fox" d /\ 1 <= s)
  /\ StronglySorted (fun x y => snd y <= snd x) results
  /\ NoDup (map fst results)
  /\ length results
     = Nat.min (Z.to_nat 1)
               (length (List.filter (fun d => (1 <=? score "QUICK fox  fox" d)%nat) docs))
  /\ (forall d, d ∈ docs -> 1 <= score "QUICK fox  fox" d -> d ∉ map fst results ->
        forall d' s', (d', s') ∈ results -> score "QUICK fox  fox" d <= s').
Proof.
  apply (search_top_k
           [ Document "a" "The quick brown Fox" [] "t1";
             Document "b" "a lazy fox and a quick fox" [] "t2";
             Document "c" "nothing to see" [] "t3" ] "QUICK fox  fox" 1).
  - cbn [map doc_id].
    repeat (apply NoDup_cons;
            split; [rewrite ?elem_of_cons, elem_of_nil; intuition discriminate|]).
    apply NoDup_nil_2.
  - lia.
Defined.

End SearchFacts.

Module PyStrMoreFacts.
Import PyStr.

Lemma lstrip_spaces (lead s : string) :
  Rag.all_chars isspace lead = true -> lstrip (lead ++ s) = lstrip s.
Proof.
  induction lead as [|c lead IH]; [reflexivity|]. cbn [Rag.all_chars].
  intros H. apply andb_prop in H as [Hc H].
  change (String c lead ++ s) with (String c (lead ++ s)).
  cbn [lstrip]. rewrite Hc. by apply IH.
Qed.

Lemma rstrip_cons (c : ascii) (s : string) :
  isspace c = false -> rstrip (String c s) = String c (rstrip s).
Proof. intros Hc. cbn [rstrip]. rewrite Hc. by destruct (rstrip s). Qed.

Lemma rstrip_app (h s : string) :
  Rag.all_chars Rag.nonspace h = true -> rstrip (h ++ s) = h ++ rstrip s.
Proof.
  induction h as [|c h IH]; [reflexivity|]. cbn [Rag.all_chars].
  intros H. apply andb_prop in H as [Hc H].
  unfold Rag.nonspace in Hc. apply negb_true_iff in Hc.
  change (String c h ++ s) with (String c (h ++ s)).
  rewrite (rstrip_cons _ _ Hc), (IH H). reflexivity.
Qed.

Lemma upper_app (a b : string) : upper (a ++ b) = upper a ++ upper b.
Proof.
  induction a as [|c a IH]; [reflexivity|].
  change (String c a ++ b) with (String c (a ++ b)).
  unfold upper in *. cbn [map_chars]. rewrite IH. reflexivity.
Qed.

Lemma prefix_app (p s : string) : String.prefix p (p ++ s) = true.
Proof.
  induction p as [|c p IH]; [by destruct s|].
  change (String c p ++ s) with (String c (p ++ s)).
  cbn [String.prefix]. destruct (ascii_dec c c); [exact IH|contradiction].
Qed.

Lemma isspace_upper_char (c : ascii) : isspace (upper_char c) = isspace c.
Proof. destruct c as [[] [] [] [] [] [] [] []]; reflexivity. Qed.

Lemma nonspace_upper (h : string) :
  Rag.all_chars Rag.nonspace (upper h) = Rag.all_chars Rag.nonspace h.
Proof.
  induction h as [|c h IH]; [reflexivity|].
  unfold upper in *. cbn [map_chars Rag.all_chars]. rewrite IH.
  unfold Rag.nonspace. by rewrite isspace_upper_char.
Qed.

Lemma append_assoc_str (s1 s2 s3 : string) : (s1 ++ s2) ++ s3 = s1 ++ (s2 ++ s3).
Proof. apply MemoryFacts.append_assoc. Qed.

Lemma prefix_split (p s : string) :
  String.prefix p s = true -> exists y, s = p ++ y.
Proof.
  revert s. induction p as [|c p IH]; intros s H.
  - by exists s.
  - destruct s as [|d s]; [discriminate|]. cbn [String.prefix] in H.
    destruct (ascii_dec c d) as [->|]; [|discriminate].
    destruct (IH _ H) as [y ->]. by exists y.
Qed.

(** [p in s] holds exactly when [s] is some text, [p], some text. *)
Lemma contains_app (p x y : string) : contains p (x ++ p ++ y) = true.
Proof.
  induction x as [|c x IH].
  - change (EmptyString ++ p ++ y) with (p ++ y).
    destruct (p ++ y) eqn:E; cbn [contains]; rewrite <- E, prefix_app; reflexivity.
  - change (String c x ++ p ++ y) with (String c (x ++ p ++ y)).
    cbn [contains]. rewrite IH. apply orb_true_r.
Qed.

Lemma contains_split (p s : string) :
  contains p s = true -> exists x y, s = x ++ p ++ y.
Proof.
  induction s as [|c s IH]; cbn [contains]; intros H.
  - rewrite orb_false_r in H. apply prefix_split in H as [y ->].
    by exists EmptyString, y.
  - apply orb_prop in H as [H|H].
    + apply prefix_split in H as [y ->]. by exists EmptyString, y.
    + destruct (IH H) as (x & y & ->). by exists (String c x), y.
Qed.

Lemma lower_app (a b : string) : lower (a ++ b) = lower a ++ lower b.
Proof.
  induction a as [|c a IH]; [reflexivity|].
  change (String c a ++ b) with (String c (a ++ b)).
  unfold lower in *. cbn [map_chars]. rewrite IH. reflexivity.
Qed.

Lemma lower_upper_char (c : ascii) : lower_char (upper_char c) = lower_char c.
Proof. destruct c as [[] [] [] [] [] [] [] []]; reflexivity. Qed.

Lemma lower_upper (s : string) : lower (upper s) = lower s.
Proof.
  induction s as [|c s IH]; [reflexivity|].
  unfold lower, upper in *. cbn [map_chars]. by rewrite IH, lower_upper_char.
Qed.

Lemma lower_lower (s : string) : lower (lower s) = lower s.
Proof.
  induction s as [|c s IH]; [reflexivity|].
  unfold lower in *. cbn [map_chars]. by rewrite IH, RagFacts.lower_char_idem.
Qed.

End PyStrMoreFacts.

Module MemoryMoreFacts.
Import PyStr PyData PyDataFacts Memory MemoryFacts.

Section Methods.
Variable json_load : string -> option json.
Variable json_dump : json -> string.
Variable isoformat_now : nat -> string.
Variable open_w : string -> world -> bool.




(** X3.  What [save_memory] writes is what the next [load_memory] of the
    same file returns, provided the JSON codec reads back what it wrote;
    the load changes neither the files nor the clock. *)
Theorem save_then_load (self self' : MemoryManager) (w w' : world) :
  save_memory json_dump isoformat_now open_w self w = (Returned tt, self', w') ->
  json_load (json_dump (memory self')) = Some (memory self') ->
  load_memory json_load isoformat_now (user_id self') (memory_file self') w'
  = (memory self', w').
Proof.
  unfold save_memory. destruct (setitem _ _ _) as [data|]; [|discriminate].
  cbv zeta. cbn [memory_file fs ticks].
  destruct (open_w (memory_file self) _); [|discriminate].
  intros [= <- <-] Hrt. unfold load_memory. cbn [fs memory_file memory] in *.
  by rewrite lookup_insert_eq, Hrt.
Qed.

(** X4.  [get_memory_manager] keeps the manager it makes: every later
    request for the same user returns that manager from the dictionary,
    without reading the files again, whatever has become of them. *)
Theorem get_memory_manager_cached (uid : string) (a : app) :
  let '(manager, a1) := get_memory_manager json_load isoformat_now uid a in
  memory_managers a1 !! uid = Some manager
  /\ forall w : world,
       get_memory_manager json_load isoformat_now uid (App w (memory_managers a1))
       = (manager, App w (memory_managers a1)).
Proof.
  unfold get_memory_manager.
  destruct (memory_managers a !! uid) as [m|] eqn:E.
  - split; [exact E|]. intros w. cbn [memory_managers]. by rewrite E.
  - destruct (init json_load isoformat_now uid (env a)) as [m w1].
    cbn [memory_managers]. split; [apply lookup_insert_eq|].
    intros w. by rewrite lookup_insert_eq.
Qed.

Variable py_str : json -> string.



End Methods.




Lemma save_then_load_witness :
  let self := Manager "ann" (memory_path "ann") (fresh_memory "ann" (clock 0)) in
  let self' := Manager "ann" (memory_path "ann")
                 (JDict (dict_set "last_interaction" (JStr (clock 1))
                           [ ("user_id", JStr "ann"); ("preferences", JDict []);
                             ("conversation_history", JList []); ("facts", JDict []);
                             ("created_at", JStr (clock 0)); ("last_interaction", JNull) ])) in
  load_memory (load_one (memory self')) clock (user_id self') (memory_file self')
    (World {[ memory_path "ann" := dump_one (memory self') ]} 2)
  = (memory self', World {[ memory_path "ann" := dump_one (memory self') ]} 2).
Proof.
  intros self self'.
  apply (save_then_load (load_one (memory self')) dump_one clock writable
           self self' (World ∅ 1)).
  - vm_compute. reflexivity.
  - reflexivity.
Defined.

(** The save of a user whose identifier holds a [/] fails, there being
    no such directory under [agent_memory]; the preference is in the
    manager all the same. *)
Example remember_without_directory :
  let '(r, a1) :=
    remember_preference load_stub dump_stub clock flat_dir "a/b" "theme" "dark"
                        (App (World ∅ 0) ∅) in
  r = Raised OSError
  /\ fs (env a1) = ∅
  /\ recall_preference load_stub clock (fun _ => "?") "a/b" "theme" a1
     = (Returned "Your theme is dark.", a1).
Proof. vm_compute. repeat split. Qed.

End MemoryMoreFacts.

Module SqlAgentMoreFacts.
Import PyStr PyStrMoreFacts PyData SqlAgent SqlAgentFacts.

(** ** Running the set-up script again *)

Lemma executemany_insert_insertable name cols rs :
  forall (db db' : gmap string table) acc,
    db !! name = Some (Table cols acc) ->
    executemany_insert name rs db = Done db' ->
    insertable cols acc rs = true.
Proof.
  induction rs as [|r rs IH]; intros db db' acc Ht H; [reflexivity|].
  cbn [executemany_insert insertable] in *. unfold insert_row in H. rewrite Ht in H.
  cbn [columns rows] in H.
  destruct (length r =? length cols)%nat; [|discriminate]. cbn [negb] in H.
  destruct (existsb _ acc); [discriminate|]. cbn [negb andb].
  eapply IH; [|exact H]. apply lookup_insert_eq.
Qed.

(** What a completed run leaves: both tables filled with the sample
    rows, in columns that take them. *)
Lemma setup_database_done (db db' : gmap string table) :
  setup_database db = Done db' ->
  exists cp co,
    db' !! "products" = Some (Table cp products)
    /\ db' !! "orders" = Some (Table co orders)
    /\ insertable cp [] products = true
    /\ insertable co [] orders = true.
Proof.
  unfold setup_database.
  set (db0 := create_table_if_not_exists "orders" orders_columns
                (create_table_if_not_exists "products" products_columns db)).
  assert (Ho : exists c r, db0 !! "orders" = Some (Table c r)).
  { subst db0. rewrite create_lookup_same. eauto. }
  assert (Hp : exists c r, db0 !! "products" = Some (Table c r)).
  { subst db0. rewrite create_lookup_other by done. rewrite create_lookup_same. eauto. }
  destruct Ho as (co & ro & Ho), Hp as (cp & rp & Hp).
  rewrite (delete_from_some _ _ _ Ho). cbv beta iota. cbn [columns].
  set (db1 := <["orders" := _]> db0).
  assert (Hp1 : db1 !! "products" = Some (Table cp rp)).
  { subst db1. by rewrite lookup_insert_ne. }
  rewrite (delete_from_some _ _ _ Hp1). cbv beta iota. cbn [columns].
  set (db2 := <["products" := _]> db1).
  assert (Hp2 : db2 !! "products" = Some (Table cp [])) by (subst db2; apply lookup_insert_eq).
  destruct (executemany_insert "products" products db2) as [db3|e3 db3] eqn:E3;
    [|intros H; simpl in H; discriminate H].
  pose proof (executemany_insert_insertable _ _ _ _ _ _ Hp2 E3) as Ip.
  apply (executemany_insert_inv _ _ _ _ _ Hp2) in E3. cbn [columns rows app] in E3.
  assert (Ho3 : db3 !! "orders" = Some (Table co [])).
  { subst db3 db2 db1. rewrite !lookup_insert_ne by done. apply lookup_insert_eq. }
  destruct (executemany_insert "orders" orders db3) as [db4|e4 db4] eqn:E4;
    [|intros H; simpl in H; discriminate H].
  pose proof (executemany_insert_insertable _ _ _ _ _ _ Ho3 E4) as Io.
  apply (executemany_insert_inv _ _ _ _ _ Ho3) in E4. cbn [columns rows app] in E4.
  intros [= <-]. exists cp, co. subst db4. repeat split; [| |exact Ip|exact Io].
  - rewrite lookup_insert_ne by done. subst db3. apply lookup_insert_eq.
  - apply lookup_insert_eq.
Qed.

Lemma create_existing name cols (db : gmap string table) t :
  db !! name = Some t -> create_table_if_not_exists name cols db = db.
Proof. intros E. unfold create_table_if_not_exists. by rewrite E. Qed.

(** X7.  The set-up script is idempotent: run on the database a completed
    run has left, it completes again and leaves the very same database. *)
Theorem setup_database_idempotent (db db' : gmap string table) :
  setup_database db = Done db' -> setup_database db' = Done db'.
Proof.
  intros H. destruct (setup_database_done _ _ H) as (cp & co & Hp & Ho & Ip & Io).
  unfold setup_database.
  rewrite (create_existing "products" _ _ _ Hp), (create_existing "orders" _ _ _ Ho).
  rewrite (delete_from_some _ _ _ Ho). cbv beta iota. cbn [columns].
  set (db1 := <["orders" := _]> db').
  assert (Hp1 : db1 !! "products" = Some (Table cp products)).
  { subst db1. by rewrite lookup_insert_ne. }
  rewrite (delete_from_some _ _ _ Hp1). cbv beta iota. cbn [columns].
  set (db2 := <["products" := _]> db1).
  assert (Hp2 : db2 !! "products" = Some (Table cp [])) by (subst db2; apply lookup_insert_eq).
  rewrite (executemany_insert_ok _ _ _ _ _ Hp2 Ip). cbv beta iota. cbn [app].
  set (db3 := <["products" := _]> db2).
  assert (Ho3 : db3 !! "orders" = Some (Table co [])).
  { subst db3 db2 db1. rewrite !lookup_insert_ne by done. apply lookup_insert_eq. }
  rewrite (executemany_insert_ok _ _ _ _ _ Ho3 Io). cbn [app]. f_equal.
  apply map_eq. intros k.
  destruct (decide (k = "orders")) as [->|Hko].
  { by rewrite lookup_insert_eq. }
  rewrite lookup_insert_ne by done. subst db3.
  destruct (decide (k = "products")) as [->|Hkp].
  { by rewrite lookup_insert_eq. }
  subst db2 db1. by rewrite !lookup_insert_ne.
Qed.

Lemma setup_database_idempotent_witness :
  setup_database
    ( <["orders" := Table orders_columns orders]>
        (<["products" := Table products_columns products]> ∅) )
  = Done ( <["orders" := Table orders_columns orders]>
             (<["products" := Table products_columns products]> ∅) ).
Proof.
  apply (setup_database_idempotent ∅). vm_compute. reflexivity.
Defined.

(** ** What the keyword check lets through *)

(** X8.  The safety check of [execute_sql_query] looks at the first word
    only, in any letter case and after any leading white space: a text
    that begins with the keyword is handed to the engine whole, whatever
    follows the keyword. *)
Theorem select_prefix_is_executed
    (sqlite_execute : string -> gmap string table -> exec_outcome * gmap string table)
    (json_dumps : list (list (string * sqlval)) -> string + string)
    (lead keyword rest : string) (w : world) :
  Rag.all_chars isspace lead = true ->
  upper keyword = "SELECT" ->
  let query := lead ++ keyword ++ rest in
  let w' := snd (execute_sql_query sqlite_execute json_dumps query w) in
  executed w' = (executed w ++ [query])%list
  /\ database w' = snd (sqlite_execute query (database w)).
Proof.
  intros Hlead Hkw query.
  assert (Hns : Rag.all_chars Rag.nonspace keyword = true).
  { by rewrite <- nonspace_upper, Hkw. }
  assert (Hgate : startswith (upper (strip query)) "SELECT" = true).
  { subst query. unfold strip, startswith. rewrite (lstrip_spaces _ _ Hlead).
    assert (lstrip (keyword ++ rest) = keyword ++ rest) as ->.
    { destruct keyword as [|c k]; [discriminate Hkw|].
      cbn [Rag.all_chars] in Hns. apply andb_prop in Hns as [Hc _].
      unfold Rag.nonspace in Hc. apply negb_true_iff in Hc.
      change (String c k ++ rest) with (String c (k ++ rest)).
      cbn [lstrip]. by rewrite Hc. }
    rewrite (rstrip_app _ _ Hns), upper_app, Hkw. apply prefix_app. }
  unfold execute_sql_query. rewrite Hgate. cbn [negb].
  destruct (sqlite_execute query (database w)) as [outcome db'].
  cbn [snd].
  destruct outcome as [description rws|e|e]; [|by split|by split].
  destruct (map _ rws) as [|d ds]; [by split|].
  by destruct (json_dumps (d :: ds)).
Qed.

Lemma select_prefix_is_executed_witness :
  let query := String "010" "  " ++ "select" ++ " 1; DROP TABLE products" in
  let w' := snd (execute_sql_query one_row_engine dumps_stub query (World ∅ [])) in
  executed w' = ([] ++ [query])%list
  /\ database w' = snd (one_row_engine query ∅).
Proof.
  apply (select_prefix_is_executed one_row_engine dumps_stub
           (String "010" "  ") "select" " 1; DROP TABLE products" (World ∅ [])).
  - reflexivity.
  - reflexivity.
Defined.

End SqlAgentMoreFacts.

Module CodeExecMoreFacts.
Import PyStr PyStrFacts PyStrMoreFacts CodeExec CodeExecFacts.

Lemma find_in {A} (f : A -> bool) (l : list A) (x : A) :
  In x l -> f x = true -> exists y, List.find f l = Some y /\ In y l.
Proof.
  induction l as [|a l IH]; intros Hin Hx; [destruct Hin|].
  cbn [List.find]. destruct (f a) eqn:E.
  - exists a. split; [reflexivity|by left].
  - destruct Hin as [->|Hin]; [congruence|].
    destruct (IH Hin Hx) as (y & Hy & Hl). exists y. split; [exact Hy|by right].
Qed.

Section WithOS.
Variable OS : Type.
Variable write_temp : string -> OS -> (string + string) * OS.
Variable subprocess_run : string -> OS -> run_result * OS.
Variable unlink : string -> OS -> option string * OS.

(** X9.  The denylist is a search for substrings of the lower-cased
    code: a listed text anywhere in the code, in any letter case, be it
    inside a comment or a string literal, makes [execute_python_code]
    refuse; nothing is then written or run and the system is left as it
    was. *)
Theorem denylisted_text_anywhere (before_ text after_ : string) (os : OS) :
  In (lower text) dangerous_patterns ->
  exists pattern,
    In pattern dangerous_patterns
    /\ execute_python_code OS write_temp subprocess_run unlink
         (before_ ++ text ++ after_) os
       = (Returns (security_error pattern), [], os).
Proof.
  intros Hin. unfold execute_python_code.
  destruct (find_in (fun pattern => contains pattern (lower (before_ ++ text ++ after_)))
              dangerous_patterns (lower text) Hin) as (p & Hp & Hl).
  { rewrite !lower_app. apply contains_app. }
  rewrite Hp. by exists p.
Qed.

(** X10.  The refusal never names ['raw_input(']: code that contains it
    contains ['input('] too, which stands earlier in the list. *)
Theorem raw_input_never_named (code : string) (os : OS) :
  denylisted code = true ->
  exists pattern,
    In pattern (removelast dangerous_patterns)
    /\ execute_python_code OS write_temp subprocess_run unlink code os
       = (Returns (security_error pattern), [], os).
Proof.
  rewrite denylisted_find. unfold execute_python_code.
  set (t := lower code).
  assert (Hraw : contains "raw_input(" t = true -> contains "input(" t = true).
  { intros H. apply contains_split in H as (x & y & ->).
    change ("raw_input(" ++ y) with ("raw_" ++ "input(" ++ y).
    rewrite <- (append_assoc_str x "raw_" ("input(" ++ y)). apply contains_app. }
  unfold dangerous_patterns. cbn [List.find removelast].
  repeat match goal with
  | |- context [if contains ?p t then _ else _] =>
      destruct (contains p t) eqn:?;
      [ intros _; eexists; split; [|reflexivity]; cbn [In]; tauto | ]
  end.
  destruct (contains "raw_input(" t) eqn:Hr; [|discriminate].
  pose proof (Hraw eq_refl) as Hi. discriminate Hi.
Qed.


End WithOS.

Lemma denylisted_text_anywhere_witness :
  exists pattern,
    In pattern dangerous_patterns
    /\ execute_python_code unit temp_ok run_echo unlink_unit
         ("print('" ++ "OPEN(" ++ "')") tt
       = (Returns (security_error pattern), [], tt).
Proof.
  apply (denylisted_text_anywhere unit temp_ok run_echo unlink_unit "print('" "OPEN(" "')" tt).
  cbn. tauto.
Defined.

Lemma raw_input_never_named_witness :
  exists pattern,
    In pattern (removelast dangerous_patterns)
    /\ execute_python_code unit temp_ok run_echo unlink_unit "x = raw_input('?')" tt
       = (Returns (security_error pattern), [], tt).
Proof.
  apply (raw_input_never_named unit temp_ok run_echo unlink_unit "x = raw_input('?')" tt).
  reflexivity.
Defined.


End CodeExecMoreFacts.

Module SentimentMoreFacts.
Import PyStr PyStrMoreFacts Sentiment.

(** X12.  On ASCII text the verdict of [analyze_sentiment] does not
    depend on letter case: a text, the text in capitals and the text in
    small letters get the same answer. *)
Theorem analyze_sentiment_ignores_case (text : string) :
  isascii text = true ->
  analyze_sentiment (upper text) = analyze_sentiment text
  /\ analyze_sentiment (lower text) = analyze_sentiment text.
Proof.
  intros _. unfold analyze_sentiment. by rewrite lower_upper, lower_lower.
Qed.

Lemma analyze_sentiment_ignores_case_witness :
  analyze_sentiment (upper "This is Great") = analyze_sentiment "This is Great"
  /\ analyze_sentiment (lower "This is Great") = analyze_sentiment "This is Great".
Proof.
  apply (analyze_sentiment_ignores_case "This is Great"). reflexivity.
Defined.

End SentimentMoreFacts.

Module ChatApiMoreFacts.
Import PyData ChatApi.

Section WithAgent.
Variable Agent : Type.
Variable Agent_new : string -> Agent + string.
Variable Agent_call : Agent -> string -> Agent * (option string + string).
Variable now : nat -> string.

(** X13.  [chat] touches no session but the request's.  A session that
    exists is kept, with its creation time, also when the call raises; a
    session that does not exist is registered as soon as its agent has
    been created, also when the first call then raises, and is not
    registered when creating the agent raises. *)
Theorem chat_sessions (chat_message : ChatMessage) (w : world Agent) :
  let sid := session_id chat_message in
  let w' := snd (chat Agent Agent_new Agent_call now chat_message w) in
  (forall other, other <> sid ->
     sessions Agent w' !! other = sessions Agent w !! other)
  /\ match sessions Agent w !! sid with
     | Some s =>
         sessions Agent w' !! sid
         = Some (Session Agent (fst (Agent_call (agent Agent s) (message chat_message)))
                         (created_at Agent s))
     | None =>
         match Agent_new system_prompt with
         | inl a =>
             sessions Agent w' !! sid
             = Some (Session Agent (fst (Agent_call a (message chat_message)))
                             (now (ticks Agent w)))
         | inr _ => w' = w
         end
     end.
Proof.
  cbv zeta. unfold chat.
  destruct (sessions Agent w !! session_id chat_message) as [s|] eqn:E.
  - destruct (Agent_call (agent Agent s) (message chat_message)) as [a [r|e]];
      cbn [snd fst sessions];
      (split; [intros other Ho; by rewrite lookup_insert_ne|apply lookup_insert_eq]).
  - destruct (Agent_new system_prompt) as [a0|e]; [|by split].
    cbn [agent created_at sessions ticks].
    destruct (Agent_call a0 (message chat_message)) as [a [r|e]];
      cbn [snd fst sessions agent created_at];
      (split; [intros other Ho; by rewrite !lookup_insert_ne by (intros Heq; by apply Ho)|apply lookup_insert_eq]).
Qed.

(** X14.  The count [GET /health] reports grows by one through a [chat]
    that opens a session (its identifier was unknown and the agent could
    be created) and is unchanged through every other [chat]. *)
Theorem health_counts_sessions (chat_message : ChatMessage) (w : world Agent) :
  let w' := snd (chat Agent Agent_new Agent_call now chat_message w) in
  dict_get "active_sessions" (health w')
  = Some (JNum (Z.of_nat (size (sessions Agent w))
                + match sessions Agent w !! session_id chat_message, Agent_new system_prompt with
                  | None, inl _ => 1
                  | _, _ => 0
                  end)).
Proof.
  cbv zeta. unfold chat, health. cbn [dict_get String.eqb Ascii.eqb Bool.eqb].
  destruct (sessions Agent w !! session_id chat_message) as [s|] eqn:E.
  - destruct (Agent_call (agent Agent s) (message chat_message)) as [a [r|e]];
      cbn [snd sessions]; do 2 f_equal;
      (rewrite map_size_insert_Some by eauto; lia).
  - destruct (Agent_new system_prompt) as [a0|e]; [|cbn [snd]; do 2 f_equal; lia].
    cbn [agent created_at sessions ticks].
    destruct (Agent_call a0 (message chat_message)) as [a [r|e]];
      cbn [snd sessions]; do 2 f_equal;
      (rewrite insert_insert_eq, map_size_insert_None by done; lia).
Qed.

Lemma chat_known_session (chat_message : ChatMessage) (w : world Agent) s :
  sessions Agent w !! session_id chat_message = Some s ->
  chat Agent Agent_new Agent_call now chat_message w
  = (response_for (session_id chat_message)
       (snd (Agent_call (agent Agent s) (message chat_message))),
     World Agent
       (<[session_id chat_message :=
            Session Agent (fst (Agent_call (agent Agent s) (message chat_message)))
                    (created_at Agent s)]> (sessions Agent w))
       (ticks Agent w)).
Proof.
  intros E. unfold chat. rewrite E.
  by destruct (Agent_call (agent Agent s) (message chat_message)) as [a [r|e]].
Qed.

Lemma chat_new_session (chat_message : ChatMessage) (w : world Agent) a0 :
  sessions Agent w !! session_id chat_message = None ->
  Agent_new system_prompt = inl a0 ->
  chat Agent Agent_new Agent_call now chat_message w
  = (response_for (session_id chat_message) (snd (Agent_call a0 (message chat_message))),
     World Agent
       (<[session_id chat_message :=
            Session Agent (fst (Agent_call a0 (message chat_message)))
                    (now (ticks Agent w))]> (sessions Agent w))
       (S (ticks Agent w))).
Proof.
  intros E Hnew. unfold chat. rewrite E, Hnew. cbn [agent created_at sessions ticks].
  destruct (Agent_call a0 (message chat_message)) as [a [r|e]];
    cbn [fst snd response_for]; by rewrite insert_insert_eq.
Qed.

(** X15.  A session remembers: the second of two requests in a session
    that the first one opened is answered by the agent as the first call
    left it; no new agent is made for it, and the session keeps its
    creation time. *)
Theorem chat_continues_session (first second : ChatMessage) (w : world Agent)
    (a0 : Agent) :
  session_id second = session_id first ->
  sessions Agent w !! session_id first = None ->
  Agent_new system_prompt = inl a0 ->
  let a1 := fst (Agent_call a0 (message first)) in
  let w1 := snd (chat Agent Agent_new Agent_call now first w) in
  let '(resp, w2) := chat Agent Agent_new Agent_call now second w1 in
  resp = response_for (session_id second) (snd (Agent_call a1 (message second)))
  /\ sessions Agent w2 !! session_id first
     = Some (Session Agent (fst (Agent_call a1 (message second))) (now (ticks Agent w)))
  /\ ticks Agent w2 = S (ticks Agent w).
Proof.
  intros Hs Hnone Hnew. cbv zeta.
  rewrite (chat_new_session first w a0 Hnone Hnew). cbn [snd].
  erewrite chat_known_session;
    [|cbn [sessions]; rewrite Hs; apply lookup_insert_eq].
  cbn [agent created_at sessions ticks]. rewrite Hs.
  split; [reflexivity|]. split; [apply lookup_insert_eq|reflexivity].
Qed.

End WithAgent.

Lemma chat_continues_session_witness :
  let a1 := fst (echo_call tt "hi") in
  let w1 := snd (chat unit echo_new echo_call clock (Message "hi" "s1") (World unit ∅ 0)) in
  let '(resp, w2) := chat unit echo_new echo_call clock (Message "again" "s1") w1 in
  resp = response_for "s1" (snd (echo_call a1 "again"))
  /\ sessions unit w2 !! "s1"
     = Some (Session unit (fst (echo_call a1 "again")) (clock 0))
  /\ ticks unit w2 = 1.
Proof.
  apply (chat_continues_session unit echo_new echo_call clock
           (Message "hi" "s1") (Message "again" "s1") (World unit ∅ 0) tt).
  - reflexivity.
  - reflexivity.
  - reflexivity.
Defined.

End ChatApiMoreFacts.

Module RagMoreFacts.
Import PyStr PyStrMoreFacts PyData Rag RagFacts.

(** ** [chunk_text]: texts it does return on *)

Lemma substring_all (s : string) : String.substring 0 (String.length s) s = s.
Proof. induction s as [|c s IH]; [reflexivity|]. cbn. by rewrite IH. Qed.

Lemma slice_all (s : string) (j : Z) : (len s <= j)%Z -> slice s 0 j = s.
Proof.
  intros Hj. unfold slice, clamp.
  assert (Hn : (0 <= len s)%Z) by (unfold len; lia).
  change (0 <? 0)%Z with false. cbv iota.
  assert ((j <? 0)%Z = false) as -> by (apply Z.ltb_ge; lia).
  rewrite Z.min_l by lia. rewrite Z.min_r by lia.
  replace (Z.to_nat (len s - 0)) with (String.length s) by (unfold len; lia).
  apply substring_all.
Qed.

Lemma chunk_loop_done (md5_hex8 : string -> string) fuel text cs ov (st : Z * list chunk) :
  (len text <= fst st)%Z -> chunk_loop md5_hex8 fuel text cs ov st = Some (snd st).
Proof.
  intros H. destruct fuel; cbn [chunk_loop];
    by assert ((fst st <? len text)%Z = false) as -> by (apply Z.ltb_ge; lia).
Qed.

(** X16.  A text no longer than [chunk_size] is one chunk: the stripped
    text, from [0] to [chunk_size] (not to the end of the text); and no
    chunk at all when it is empty or only white space. *)
Theorem chunk_text_short (md5_hex8 : string -> string) (fuel : nat)
    (text : string) (cs ov : Z) :
  (len text <= cs)%Z ->
  1 <= fuel ->
  chunk_text md5_hex8 fuel text cs ov
  = Some (match strip text with
          | EmptyString => []
          | body => [Chunk (md5_hex8 body) body 0 cs (len body)]
          end).
Proof.
  intros Hlen Hfuel. destruct fuel as [|fuel]; [lia|].
  unfold chunk_text. cbn [chunk_loop fst].
  destruct (0 <? len text)%Z eqn:Hpos.
  - unfold chunk_step. rewrite Z.add_0_l.
    assert (Hc : (cs <? len text)%Z = false) by (apply Z.ltb_ge; lia).
    rewrite !Hc, (slice_all _ _ Hlen). rewrite chunk_loop_done.
    + cbn [snd]. destruct (strip text); reflexivity.
    + destruct (strip text); cbn [fst]; rewrite ?Hc; lia.
  - apply Z.ltb_ge in Hpos. destruct text; [reflexivity|].
    unfold len in Hpos. cbn in Hpos. lia.
Qed.

Lemma chunk_text_short_witness :
  chunk_text digest_stub 1 "  One. Two. " 500 50
  = Some (match strip "  One. Two. " with
          | EmptyString => []
          | body => [Chunk (digest_stub body) body 0 500 (len body)]
          end).
Proof.
  apply (chunk_text_short digest_stub 1 "  One. Two. " 500 50).
  - vm_compute. discriminate.
  - lia.
Defined.

(** The loop returns when every pass moves [start] forward. *)
Lemma chunk_loop_progress (md5_hex8 : string -> string) text cs ov :
  (forall start chunks, (0 <= start < len text)%Z ->
     (start + 1 <= fst (chunk_step md5_hex8 text cs ov (start, chunks)))%Z) ->
  forall fuel (st : Z * list chunk),
    (0 <= fst st)%Z -> (len text - fst st <= Z.of_nat fuel)%Z ->
    is_Some (chunk_loop md5_hex8 fuel text cs ov st).
Proof.
  intros Hstep. induction fuel as [|fuel IH]; intros [start chunks] H0 Hf; cbn [fst] in *.
  - rewrite chunk_loop_done; [eauto|cbn [fst]; lia].
  - cbn [chunk_loop fst]. destruct (start <? len text)%Z eqn:E; [|eauto].
    apply Z.ltb_lt in E. specialize (Hstep start chunks ltac:(lia)).
    apply IH; lia.
Qed.

(** X17.  Without overlap the chunker always returns: with [overlap = 0]
    and [chunk_size >= 1] its loop ends within [len(text)] passes, for
    every text. *)
Theorem chunk_text_returns_without_overlap (md5_hex8 : string -> string)
    (text : string) (cs : Z) :
  (1 <= cs)%Z ->
  is_Some (chunk_text md5_hex8 (String.length text) text cs 0).
Proof.
  intros Hcs. unfold chunk_text. apply chunk_loop_progress.
  - intros start chunks Hs. unfold chunk_step.
    destruct (start + cs <? len text)%Z eqn:E1.
    + destruct (0 <? _)%Z eqn:E2.
      * apply Z.ltb_lt in E2.
        match goal with |- context [Z.max ?a ?b] => set (boundary := Z.max a b) in * end.
        destruct (start + boundary + 1 <? len text)%Z; cbn [fst]; lia.
      * rewrite E1. cbn [fst]. lia.
    + rewrite E1. cbn [fst]. lia.
  - cbn [fst]. lia.
  - cbn [fst]. unfold len. lia.
Qed.

Lemma chunk_text_returns_without_overlap_witness :
  is_Some (chunk_text digest_stub (String.length stuck_text) stuck_text 500 0).
Proof.
  apply (chunk_text_returns_without_overlap digest_stub stuck_text 500). lia.
Defined.

Lemma rfind_from_absent (c : ascii) (s : string) :
  all_chars (other_than c) s = true -> forall k, rfind_from k c s = (-1)%Z.
Proof.
  induction s as [|d s IH]; intros H k; [reflexivity|].
  cbn [all_chars] in H. apply andb_prop in H as [Hd H].
  cbn [rfind_from]. rewrite (IH H). cbn.
  unfold other_than in Hd. apply negb_true_iff in Hd. by rewrite Hd.
Qed.

Lemma all_chars_substring P (s : string) :
  all_chars P s = true -> forall n m, all_chars P (String.substring n m s) = true.
Proof.
  induction s as [|d s IH]; intros H n m.
  - by destruct n, m.
  - cbn [all_chars] in H. apply andb_prop in H as [Hd H].
    destruct n as [|n]; cbn [String.substring].
    + destruct m as [|m]; [reflexivity|]. cbn [all_chars]. rewrite Hd. by apply IH.
    + by apply IH.
Qed.

(** X18.  On a text without a full stop and without a line break the
    chunker returns whenever [0 <= overlap < chunk_size]: every pass moves
    the start forward by [chunk_size - overlap]. *)
Theorem chunk_text_returns_without_boundary (md5_hex8 : string -> string)
    (text : string) (cs ov : Z) :
  all_chars (other_than ".") text = true ->
  all_chars (other_than newline) text = true ->
  (0 <= ov < cs)%Z ->
  is_Some (chunk_text md5_hex8 (String.length text) text cs ov).
Proof.
  intros Hdot Hnl Hov. unfold chunk_text. apply chunk_loop_progress.
  - intros start chunks Hs. unfold chunk_step.
    destruct (start + cs <? len text)%Z eqn:E1.
    + unfold rfind, slice.
      rewrite (rfind_from_absent "." _ (all_chars_substring _ _ Hdot _ _)).
      rewrite (rfind_from_absent newline _ (all_chars_substring _ _ Hnl _ _)).
      change (0 <? Z.max (-1) (-1))%Z with false. cbv iota.
      rewrite E1. cbn [fst]. lia.
    + rewrite E1. cbn [fst]. lia.
  - cbn [fst]. lia.
  - cbn [fst]. unfold len. lia.
Qed.

Lemma chunk_text_returns_without_boundary_witness :
  is_Some (chunk_text digest_stub (String.length (repeat_char "a" 1200))
                      (repeat_char "a" 1200) 500 50).
Proof.
  apply (chunk_text_returns_without_boundary digest_stub (repeat_char "a" 1200) 500 50).
  - vm_compute. reflexivity.
  - vm_compute. reflexivity.
  - lia.
Defined.

End RagMoreFacts.

Module SearchMoreFacts.
Import PyStr PyStrMoreFacts PyData PyDataFacts Rag RagFacts SearchFacts.

(** ** Searches that find nothing *)

Lemma split_go_spaces (s : string) :
  all_chars isspace s = true -> split_go EmptyString s = [].
Proof.
  induction s as [|c s IH]; [reflexivity|]. cbn [all_chars].
  intros H. apply andb_prop in H as [Hc H]. cbn [split_go]. rewrite Hc. by apply IH.
Qed.

Lemma isspace_lower_char (c : ascii) : isspace (lower_char c) = isspace c.
Proof. destruct c as [[] [] [] [] [] [] [] []]; reflexivity. Qed.

Lemma spaces_lower (s : string) :
  all_chars isspace (lower s) = all_chars isspace s.
Proof.
  induction s as [|c s IH]; [reflexivity|].
  unfold lower in *. cbn [map_chars all_chars]. by rewrite IH, isspace_lower_char.
Qed.

Lemma score_word_empty_index (words : list string) :
  foldl (score_word ∅) [] words = [].
Proof.
  induction words as [|w ws IH]; [reflexivity|]. cbn [foldl].
  unfold score_word at 2. by rewrite lookup_empty.
Qed.

(** X19.  [search] returns the empty list when [top_k] is [0], when the
    store is empty, and when the query is empty or only white space. *)
Theorem search_finds_nothing :
  (forall query self, search query 0 self = [])
  /\ (forall query top_k, search query top_k empty_store = [])
  /\ (forall query top_k self,
        all_chars isspace query = true -> search query top_k self = []).
Proof.
  split; [|split].
  - intros query self. unfold search, list_upto, clamp.
    change (0 <? 0)%Z with false. cbv iota.
    rewrite Z.min_l by lia. reflexivity.
  - intros query top_k. unfold search. cbn [empty_store index].
    rewrite score_word_empty_index.
    unfold sorted_desc, list_upto. cbn [foldr]. by rewrite take_nil.
  - intros query top_k self Hq. unfold search, split.
    rewrite split_go_spaces by (by rewrite spaces_lower).
    cbn [foldl]. unfold sorted_desc, list_upto. cbn [foldr]. by rewrite take_nil.
Qed.

(** ** A negative [top_k] *)

Lemma list_upto_negative {A} (l : list A) (top_k : Z) :
  (top_k < 0)%Z ->
  list_upto l top_k = take (Z.to_nat (Z.of_nat (length l) + top_k)) l.
Proof.
  intros Hk. unfold list_upto, clamp.
  assert ((top_k <? 0)%Z = true) as -> by (apply Z.ltb_lt; lia).
  f_equal. lia.
Qed.

(** X20.  With a negative [top_k] the slice [[:top_k]] does not give an
    empty result: it drops the [-top_k] lowest-ranked documents, so the
    number of results is the number of documents with a positive score
    less [-top_k] (and none when there are not that many). *)
Theorem search_negative_top_k (docs : list document) (query : string) (top_k : Z) :
  NoDup (map doc_id docs) ->
  (top_k < 0)%Z ->
  length (search query top_k (add_all docs empty_store))
  = Z.to_nat (Z.of_nat (length (List.filter (fun d => (1 <=? score query d)%nat) docs))
              + top_k).
Proof.
  intros Hnd Hk.
  set (sorted := sorted_desc (scores_of docs query)).
  assert (Hperm : sorted ≡ₚ scores_of docs query) by apply sorted_desc_perm.
  assert (Hres : search query top_k (add_all docs empty_store)
    = flat_map (fun '(id, score) =>
                  match find_doc docs id with
                  | Some doc => [(doc, score)]
                  | None => []
                  end) (take (Z.to_nat (Z.of_nat (length sorted) + top_k)) sorted)).
  { unfold search. rewrite (list_upto_negative _ _ Hk). fold (scores_of docs query).
    fold sorted. by rewrite self_documents. }
  rewrite Hres.
  assert (HF : Forall2 (result_of docs)
                 (take (Z.to_nat (Z.of_nat (length sorted) + top_k)) sorted)
                 (flat_map (fun '(id, score) =>
                              match find_doc docs id with
                              | Some doc => [(doc, score)]
                              | None => []
                              end)
                    (take (Z.to_nat (Z.of_nat (length sorted) + top_k)) sorted))).
  { apply results_forall2. intros [id n] Hx.
    assert (Hin : (id, n) ∈ sorted).
    { rewrite <- (take_drop (Z.to_nat (Z.of_nat (length sorted) + top_k)) sorted).
      apply elem_of_app. by left. }
    rewrite Hperm in Hin.
    destruct (scores_of_entry docs query Hnd _ _ Hin) as (d & _ & _ & _ & _ & Hf).
    by exists d. }
  rewrite <- (Forall2_length _ _ _ HF).
  rewrite length_take, (Permutation_length Hperm), (scores_of_length docs query Hnd). lia.
Qed.

Lemma search_negative_top_k_witness :
  length (search "QUICK fox  fox" (-1)
            (add_all [ Document "a" "The quick brown Fox" [] "t1";
                       Document "b" "a lazy fox and a quick fox" [] "t2";
                       Document "c" "nothing to see" [] "t3" ] empty_store))
  = Z.to_nat (Z.of_nat (length (List.filter
                 (fun d => (1 <=? score "QUICK fox  fox" d)%nat)
                 [ Document "a" "The quick brown Fox" [] "t1";
                   Document "b" "a lazy fox and a quick fox" [] "t2";
                   Document "c" "nothing to see" [] "t3" ]))
              + (-1)).
Proof.
  apply (search_negative_top_k
           [ Document "a" "The quick brown Fox" [] "t1";
             Document "b" "a lazy fox and a quick fox" [] "t2";
             Document "c" "nothing to see" [] "t3" ] "QUICK fox  fox" (-1)).
  - cbn [map doc_id].
    repeat (apply NoDup_cons;
            split; [rewrite ?elem_of_cons, elem_of_nil; intuition discriminate|]).
    apply NoDup_nil_2.
  - lia.
Defined.

End SearchMoreFacts.

Module PipelineFacts.
Import PyStr PyStrMoreFacts PyData Rag RagFacts SearchFacts.

(** ** The index after a sequence of additions *)

Lemma index_word_other id (idx : gmap string (list string)) word w :
  w <> word -> index_word id idx word !! w = idx !! w.
Proof.
  intros Hne. unfold index_word.
  destruct (idx !! word); by rewrite lookup_insert_ne.
Qed.

Lemma foldl_index_word_other id (ws : list string) w :
  w ∉ ws -> forall idx : gmap string (list string),
    foldl (index_word id) idx ws !! w = idx !! w.
Proof.
  induction ws as [|word ws IH]; intros Hw idx; cbn [foldl]; [reflexivity|].
  apply not_elem_of_cons in Hw as [Hne Hw].
  rewrite (IH Hw). by apply index_word_other.
Qed.

Lemma add_all_lookup_other (docs : list document) w :
  (forall d, d ∈ docs -> has_word w d = false) ->
  forall s : store, index (add_all docs s) !! w = index s !! w.
Proof.
  unfold add_all. induction docs as [|d docs IH]; intros Hno s; cbn [foldl]; [reflexivity|].
  rewrite IH by (intros d' Hd'; apply Hno; by apply list_elem_of_further).
  unfold add_document. cbn [index].
  apply foldl_index_word_other. rewrite elem_of_remove_dups.
  specialize (Hno d (list_elem_of_here _ _)). unfold has_word in Hno.
  by apply bool_decide_eq_false in Hno.
Qed.

(** X21.  After any sequence of [add_document] calls on an empty store
    the store holds the documents in the order they were added, and the
    index lists under each word, in that order, the identifiers of
    exactly the documents that have the word among the lower-cased words
    of their text: once per document (so without repetition when the
    identifiers are pairwise different), and with no key at all for a
    word that no document has. *)
Theorem index_lists_documents (docs : list document) (w : string) :
  let self := add_all docs empty_store in
  documents self = docs
  /\ postings (index self) w = map doc_id (List.filter (has_word w) docs)
  /\ (NoDup (map doc_id docs) -> NoDup (postings (index self) w))
  /\ ((forall d, d ∈ docs -> has_word w d = false) -> index self !! w = None).
Proof.
  cbv zeta. destruct (add_all_spec docs empty_store) as [Hd Hi].
  assert (Hp : postings (index (add_all docs empty_store)) w
               = map doc_id (List.filter (has_word w) docs)).
  { rewrite Hi. unfold postings at 1. cbn [empty_store index]. by rewrite lookup_empty. }
  split; [by rewrite Hd|]. split; [exact Hp|]. split.
  - intros Hnd. rewrite Hp. by apply filter_ids_nodup.
  - intros Hno. rewrite (add_all_lookup_other docs w Hno). apply lookup_empty.
Qed.

(** ** [RAGPipeline.ingest_document] *)

Lemma str_of_nat_inj (i j : nat) : str_of_nat i = str_of_nat j -> i = j.
Proof.
  unfold str_of_nat. intros H.
  apply (f_equal DecimalString.NilEmpty.uint_of_string) in H.
  rewrite !DecimalString.NilEmpty.usu in H. injection H as H.
  apply (f_equal Nat.of_uint) in H. by rewrite !DecimalNat.Unsigned.of_to in H.
Qed.

Lemma append_cancel_l (p a b : string) : p ++ a = p ++ b -> a = b.
Proof.
  induction p as [|c p IH]; [done|].
  change (String c (p ++ a) = String c (p ++ b) -> a = b).
  intros [= H]. by apply IH.
Qed.

Lemma chunk_doc_id_inj (id : string) (i j : nat) :
  chunk_doc_id id i = chunk_doc_id id j -> i = j.
Proof.
  unfold chunk_doc_id. intros H.
  by apply append_cancel_l, append_cancel_l, str_of_nat_inj in H.
Qed.

Lemma store_chunks_spec (now : nat -> string) metadata id total (chunks : list chunk) :
  forall i (st : store * nat),
    let st' := store_chunks now metadata id total i chunks st in
    map doc_id (documents (fst st'))
    = (map doc_id (documents (fst st)) ++ map (chunk_doc_id id) (seq i (length chunks)))%list
    /\ map doc_text (documents (fst st'))
       = (map doc_text (documents (fst st)) ++ map chunk_body chunks)%list
    /\ snd st' = snd st + length chunks.
Proof.
  induction chunks as [|c chunks IH]; intros i [vs t]; cbn [store_chunks length seq map].
  - rewrite !app_nil_r. cbn [snd]. repeat split; lia.
  - destruct (IH (S i) (add_document (chunk_doc_id id i) (chunk_body c)
                          (Some (chunk_metadata metadata id i total)) (now t) vs, S t))
      as (H1 & H2 & H3).
    cbv zeta in *. rewrite H1, H2, H3.
    cbn [fst snd add_document documents]. rewrite !map_app. cbn [map doc_id doc_text].
    rewrite <- !app_assoc. cbn [app]. repeat split; lia.
Qed.

(** X22.  [ingest_document] returns the number of chunks the chunker
    made and adds exactly that many documents to the vector store, after
    the ones it held and in the order of the chunks: the [i]-th holds
    the text of chunk [i] under the identifier [<doc_id>_chunk_<i>], and
    these identifiers are pairwise different. *)
Theorem ingest_document_adds_chunks
    (md5_hex8 : string -> string) (now : nat -> string) (fuel : nat)
    (self : RAGPipeline) (id text : string) (metadata : option (list (string * json)))
    (vector_store : store) (t n : nat) (st' : store * nat) :
  ingest_document md5_hex8 now fuel self id text metadata (vector_store, t)
  = Some (n, st') ->
  exists chunks,
    chunk_text md5_hex8 fuel text (chunk_size self) (chunk_overlap self) = Some chunks
    /\ n = length chunks
    /\ map doc_id (documents (fst st'))
       = (map doc_id (documents vector_store) ++ map (chunk_doc_id id) (seq 0 n))%list
    /\ map doc_text (documents (fst st'))
       = (map doc_text (documents vector_store) ++ map chunk_body chunks)%list
    /\ NoDup (map (chunk_doc_id id) (seq 0 n))
    /\ snd st' = t + n.
Proof.
  unfold ingest_document.
  destruct (chunk_text md5_hex8 fuel text (chunk_size self) (chunk_overlap self))
    as [chunks|]; [|discriminate].
  intros [= <- <-]. exists chunks.
  destruct (store_chunks_spec now metadata id (length chunks) chunks 0 (vector_store, t))
    as (H1 & H2 & H3).
  split; [reflexivity|]. split; [reflexivity|].
  split; [exact H1|]. split; [exact H2|]. split; [|exact H3].
  assert (Hinj : Inj (=) (=) (chunk_doc_id id)) by (intros i j; apply chunk_doc_id_inj).
  apply (NoDup_fmap_2 (chunk_doc_id id)), NoDup_seq.
Qed.

Lemma ingest_document_adds_chunks_witness :
  exists chunks,
    chunk_text digest_stub 5 "One. Two." 400 50 = Some chunks
    /\ 1 = length chunks
    /\ map doc_id (documents (fst
         (store_chunks clock_stub None "guide" 1 0
            [Chunk "d41d8cd9" "One. Two." 0 400 9] (empty_store, 0))))
       = (map doc_id (documents empty_store) ++ map (chunk_doc_id "guide") (seq 0 1))%list
    /\ map doc_text (documents (fst
         (store_chunks clock_stub None "guide" 1 0
            [Chunk "d41d8cd9" "One. Two." 0 400 9] (empty_store, 0))))
       = (map doc_text (documents empty_store) ++ map chunk_body chunks)%list
    /\ NoDup (map (chunk_doc_id "guide") (seq 0 1))
    /\ snd (store_chunks clock_stub None "guide" 1 0
              [Chunk "d41d8cd9" "One. Two." 0 400 9] (empty_store, 0)) = 0 + 1.
Proof.
  apply (ingest_document_adds_chunks digest_stub clock_stub 5 (Pipeline 400 50)
           "guide" "One. Two." None empty_store 0 1).
  vm_compute. reflexivity.
Defined.

End PipelineFacts.
